(** * xv6 lock lab: buffer cache (kernel/bio.c) and page allocator
      (kernel/kalloc.c)

    A shallow embedding of the two files.  C integers are [Z] with the
    wrap-around of their width written out; the fixed-size global arrays
    are total functions from indices; a pointer to a buffer is the pair
    (bucket index, slot index) of the slot it points at; a pointer to a
    page is its address.

    Each function below is what one call does when no other processor
    interferes while it runs.  The spin locks of the source are taken and
    given back inside a call and carry no data between calls, so they do
    not appear; the sleep lock of a buffer outlives the call that takes
    it and is part of the state.  [bget] is split at the point where it
    gives up the bucket lock and may park on the sleep lock. *)

From Stdlib Require Import ZArith List Lia Bool String.
Import ListNotations.
Local Open Scope Z_scope.

(** Outcome of a kernel routine: it returns, it calls [panic] (which never
    returns), it parks the caller on a sleep lock (the state reached so
    far is kept), or it dereferences an address outside memory. *)
Inductive result (S A : Type) : Type :=
| Ok (s : S) (a : A)
| Panic (msg : string)
| Parked (s : S)
| Fault.
Arguments Ok {S A} s a.
Arguments Panic {S A} msg.
Arguments Parked {S A} s.
Arguments Fault {S A}.

(** Arithmetic of [uint]. *)
Definition UINT_MAX : Z := 0xffffffff.
Definition wrap32 (x : Z) : Z := x mod 2 ^ 32.

(** C [for (i = start; i < start + n; i++) acc = body i acc]. *)
Fixpoint for_loop {A : Type} (n : nat) (i : Z) (body : Z -> A -> A) (acc : A) : A :=
  match n with
  | O => acc
  | S n' => for_loop n' (i + 1) body (body i acc)
  end.

(* ================================================================== *)
(** * Buffer cache *)

Module Bio.

Definition BUCKETSIZE : Z := 13.
Definition BUFFERSIZE : Z := 7.

(** Modelled from the spec: sleeplock.h and sleeplock.c are not among the
    sources.  The exclusive (parking) lock of a buffer: whether it is
    held, and by which process. *)
Record sleeplock : Type := mkSleeplock {
  locked : bool;
  pid : Z
}.

(** Modelled from the spec: buf.h is not among the sources.  The fields
    are the ones bio.c touches ([valid], [dev], [blockno], [lock],
    [refcnt], [lastuse]) and the block payload; [refcnt], [lastuse],
    [dev] and [blockno] are [uint]. *)
Record buf : Type := mkBuf {
  valid : Z;
  dev : Z;
  blockno : Z;
  lock : sleeplock;
  refcnt : Z;
  lastuse : Z;
  data : list Byte.byte
}.

(** [bcachebucket[k].buf[i]] *)
Definition bcache : Type := Z -> Z -> buf.

(** A [struct buf *] into the array. *)
Definition bufptr : Type := (Z * Z)%type.

Definition upd (bc : bcache) (k i : Z) (b : buf) : bcache :=
  fun k' i' => if (k' =? k) && (i' =? i) then b else bc k' i'.

Definition set_valid (b : buf) (v : Z) : buf :=
  mkBuf v (dev b) (blockno b) (lock b) (refcnt b) (lastuse b) (data b).
Definition set_lock (b : buf) (l : sleeplock) : buf :=
  mkBuf (valid b) (dev b) (blockno b) l (refcnt b) (lastuse b) (data b).
Definition set_refcnt (b : buf) (r : Z) : buf :=
  mkBuf (valid b) (dev b) (blockno b) (lock b) r (lastuse b) (data b).
Definition set_lastuse (b : buf) (t : Z) : buf :=
  mkBuf (valid b) (dev b) (blockno b) (lock b) (refcnt b) t (data b).
Definition set_data (b : buf) (d : list Byte.byte) : buf :=
  mkBuf (valid b) (dev b) (blockno b) (lock b) (refcnt b) (lastuse b) d.

(** ** Sleep lock primitives *)

(** Modelled from the spec: [initsleeplock]. *)
Definition initsleeplock : sleeplock := mkSleeplock false 0.

(** Modelled from the spec: [acquiresleep] obtains a free lock for the
    calling process; on a held lock the caller parks ([None]). *)
Definition acquiresleep (l : sleeplock) (p : Z) : option sleeplock :=
  if locked l then None else Some (mkSleeplock true p).

(** Modelled from the spec: [releasesleep]. *)
Definition releasesleep (l : sleeplock) : sleeplock := mkSleeplock false 0.

(** Modelled from the spec: [holdingsleep], the lock is held and held by
    the caller. *)
Definition holdingsleep (l : sleeplock) (p : Z) : bool :=
  locked l && (pid l =? p).

(** ** binit *)

(** The array lives in static storage: all bytes zero before [binit]. *)
Definition zero_buf : buf := mkBuf 0 0 0 (mkSleeplock false 0) 0 0 [].
Definition bss : bcache := fun _ _ => zero_buf.

(** Body of the inner loop of [binit] (lines 45-47). *)
Definition binit_slot (b : buf) : buf :=
  set_refcnt (set_lastuse (set_lock b initsleeplock) 0) 0.

Definition binit_bucket (i : Z) (bc : bcache) : bcache :=
  for_loop (Z.to_nat BUFFERSIZE) 0 (fun j bc => upd bc i j (binit_slot (bc i j))) bc.

Definition binit (bc : bcache) : bcache :=
  for_loop (Z.to_nat BUCKETSIZE) 0 binit_bucket bc.

(** ** bget *)

(** First loop of [bget] (lines 63-72): index of the first slot of bucket
    [k] whose [dev] and [blockno] match. *)
Fixpoint find_cached (bc : bcache) (k dv bn : Z) (n : nat) (i : Z) : option Z :=
  match n with
  | O => None
  | S n' =>
      if (dev (bc k i) =? dv) && (blockno (bc k i) =? bn) then Some i
      else find_cached bc k dv bn n' (i + 1)
  end.

(** Second loop of [bget] (lines 76-84), carrying [least] and
    [least_idx]. *)
Fixpoint find_lru (bc : bcache) (k : Z) (n : nat) (i least least_idx : Z) : Z :=
  match n with
  | O => least_idx
  | S n' =>
      if (refcnt (bc k i) =? 0) && (lastuse (bc k i) <? least)
      then find_lru bc k n' (i + 1) (lastuse (bc k i)) i
      else find_lru bc k n' (i + 1) least least_idx
  end.

Definition hash (bn : Z) : Z := bn mod BUCKETSIZE.

(** [bget] up to the release of the bucket lock (lines 60-68 and
    76-111): [ticks] is the value of the global tick counter read inside
    the critical section. *)
Definition bget_locked (bc : bcache) (dv bn ticks : Z) : result bcache bufptr :=
  let k := hash bn in
  match find_cached bc k dv bn (Z.to_nat BUFFERSIZE) 0 with
  | Some i =>
      let b := bc k i in
      Ok (upd bc k i (set_lastuse (set_refcnt b (wrap32 (refcnt b + 1))) ticks)) (k, i)
  | None =>
      let least_idx := find_lru bc k (Z.to_nat BUFFERSIZE) 0 UINT_MAX (-1) in
      if least_idx =? -1 then Panic "do not have enough free buffer"
      else
        let b := bc k least_idx in
        Ok (upd bc k least_idx (mkBuf 0 dv bn (lock b) 1 ticks (data b))) (k, least_idx)
  end.

(** [acquiresleep(&b->lock)] by process [p] on the slot [bp]. *)
Definition lock_buf (bc : bcache) (p : Z) (bp : bufptr) : result bcache bufptr :=
  let b := bc (fst bp) (snd bp) in
  match acquiresleep (lock b) p with
  | Some l => Ok (upd bc (fst bp) (snd bp) (set_lock b l)) bp
  | None => Parked bc
  end.

Definition bget (bc : bcache) (p dv bn ticks : Z) : result bcache bufptr :=
  match bget_locked bc dv bn ticks with
  | Ok bc1 bp => lock_buf bc1 p bp
  | Panic m => Panic m
  | Parked s => Parked s
  | Fault => Fault
  end.

(** ** brelse, bpin, bunpin *)

Definition brelse (bc : bcache) (p : Z) (bp : bufptr) : result bcache unit :=
  let b := bc (fst bp) (snd bp) in
  if negb (holdingsleep (lock b) p) then Panic "brelse"
  else
    let b1 := set_refcnt b (wrap32 (refcnt b - 1)) in
    Ok (upd bc (fst bp) (snd bp) (set_lock b1 (releasesleep (lock b1)))) tt.

Definition bpin (bc : bcache) (bp : bufptr) : bcache :=
  let b := bc (fst bp) (snd bp) in
  upd bc (fst bp) (snd bp) (set_refcnt b (wrap32 (refcnt b + 1))).

Definition bunpin (bc : bcache) (bp : bufptr) : bcache :=
  let b := bc (fst bp) (snd bp) in
  upd bc (fst bp) (snd bp) (set_refcnt b (wrap32 (refcnt b - 1))).

(** ** bread, bwrite: the cache together with the disk *)

(** The cache and the disk behind it.  The disk maps a device and a block
    number to a payload; every transfer is logged ([true] for a write). *)
Record world : Type := mkWorld {
  cache : bcache;
  disk : Z -> Z -> list Byte.byte;
  transfers : list (bool * Z * Z)
}.

(** Modelled from the spec: [virtio_disk_rw(b, write)] moves the whole
    payload of the buffer to or from the block [b->blockno] of the device
    [b->dev], and returns when the transfer is done. *)
Definition virtio_disk_rw (w : world) (bp : bufptr) (write : bool) : world :=
  let b := cache w (fst bp) (snd bp) in
  if write then
    mkWorld (cache w)
            (fun d n => if (d =? dev b) && (n =? blockno b) then data b else disk w d n)
            (transfers w ++ [(true, dev b, blockno b)])
  else
    mkWorld (upd (cache w) (fst bp) (snd bp) (set_data b (disk w (dev b) (blockno b))))
            (disk w)
            (transfers w ++ [(false, dev b, blockno b)]).

Definition with_cache (w : world) (bc : bcache) : world :=
  mkWorld bc (disk w) (transfers w).

(** Lines 124-128 of [bread], on the buffer [bget] returned. *)
Definition bread_fill (w : world) (bp : bufptr) : world :=
  if valid (cache w (fst bp) (snd bp)) =? 0 then
    let w1 := virtio_disk_rw w bp false in
    with_cache w1 (upd (cache w1) (fst bp) (snd bp)
                       (set_valid (cache w1 (fst bp) (snd bp)) 1))
  else w.

Definition bread (w : world) (p dv bn ticks : Z) : result world bufptr :=
  match bget (cache w) p dv bn ticks with
  | Ok bc1 bp => Ok (bread_fill (with_cache w bc1) bp) bp
  | Panic m => Panic m
  | Parked bc1 => Parked (with_cache w bc1)
  | Fault => Fault
  end.

Definition bwrite (w : world) (p : Z) (bp : bufptr) : result world unit :=
  if negb (holdingsleep (lock (cache w (fst bp) (snd bp))) p) then Panic "bwrite"
  else Ok (virtio_disk_rw w bp true) tt.

(** ** Specification vocabulary *)

(** The identity a slot carries. *)
Definition ident (b : buf) : Z * Z := (dev b, blockno b).

Definition in_cache (k i : Z) : Prop :=
  0 <= k < BUCKETSIZE /\ 0 <= i < BUFFERSIZE.

(** No slot of bucket [k] matches: the first loop of [bget] falls
    through. *)
Definition no_match (bc : bcache) (k dv bn : Z) : Prop :=
  forall j, 0 <= j < BUFFERSIZE -> ident (bc k j) <> (dv, bn).

(** Slot [i] is the least recently used unreferenced slot of bucket [k],
    the lowest index among equals. *)
Definition lru_slot (bc : bcache) (k i : Z) : Prop :=
  0 <= i < BUFFERSIZE /\ refcnt (bc k i) = 0 /\
  (forall j, 0 <= j < BUFFERSIZE -> refcnt (bc k j) = 0 -> lastuse (bc k i) <= lastuse (bc k j)) /\
  (forall j, 0 <= j < i -> refcnt (bc k j) = 0 -> lastuse (bc k i) < lastuse (bc k j)).

(** The state after boot: [binit] on the zeroed array, an arbitrary disk,
    no transfer yet. *)
Definition init_world (dsk : Z -> Z -> list Byte.byte) : world :=
  mkWorld (binit bss) dsk [].

(** The atomic steps of the cache.  A caller that parks in [bget] leaves
    the state of its critical section behind and later obtains the lock
    ([step_wake]) and finishes [bread] ([step_fill]). *)
Inductive step : world -> world -> Prop :=
| step_bget w p dv bn t bc bp :
    bget (cache w) p dv bn t = Ok bc bp -> step w (with_cache w bc)
| step_bget_park w p dv bn t bc :
    bget (cache w) p dv bn t = Parked bc -> step w (with_cache w bc)
| step_wake w p bp bc bp' :
    lock_buf (cache w) p bp = Ok bc bp' -> step w (with_cache w bc)
| step_bread w p dv bn t w' bp :
    bread w p dv bn t = Ok w' bp -> step w w'
| step_fill w bp :
    step w (bread_fill w bp)
| step_bwrite w p bp w' :
    bwrite w p bp = Ok w' tt -> step w w'
| step_brelse w p bp bc :
    brelse (cache w) p bp = Ok bc tt -> step w (with_cache w bc)
| step_bpin w bp :
    step w (with_cache w (bpin (cache w) bp))
| step_bunpin w bp :
    step w (with_cache w (bunpin (cache w) bp)).

Inductive reachable : world -> Prop :=
| reach_init dsk : reachable (init_world dsk)
| reach_step w w' : reachable w -> step w w' -> reachable w'.

(** At most one slot of the whole cache carries each identity. *)
Definition unique_ident (bc : bcache) : Prop :=
  forall k i k' i', in_cache k i -> in_cache k' i' ->
    ident (bc k i) = ident (bc k' i') -> (k, i) = (k', i').

(** The same, except for the identity (0, 0) that zeroed slots carry. *)
Definition unique_nonzero_ident (bc : bcache) : Prop :=
  forall k i k' i', in_cache k i -> in_cache k' i' ->
    ident (bc k i) = ident (bc k' i') -> ident (bc k i) <> (0, 0) ->
    (k, i) = (k', i') /\ k = hash (blockno (bc k i)).

(** Acquire the blocks of [l] one after the other (process [p], tick
    [t] each), none released. *)
Fixpoint acquire_all (bc : bcache) (l : list (Z * Z * Z * Z)) : result bcache unit :=
  match l with
  | [] => Ok bc tt
  | (p, dv, bn, t) :: l' =>
      match bget bc p dv bn t with
      | Ok bc1 _ => acquire_all bc1 l'
      | Panic m => Panic m
      | Parked s => Parked s
      | Fault => Fault
      end
  end.

(** What the accumulator of the second loop knows after the slots
    [0 .. i-1]. *)
Definition lru_inv (bc : bcache) (k i least idx : Z) : Prop :=
  (idx = -1 /\ least = UINT_MAX /\
   forall j, 0 <= j < i -> ~ (refcnt (bc k j) = 0 /\ lastuse (bc k j) < UINT_MAX))
  \/
  (0 <= idx < i /\ refcnt (bc k idx) = 0 /\ lastuse (bc k idx) = least /\
   least < UINT_MAX /\
   (forall j, 0 <= j < i -> refcnt (bc k j) = 0 -> least <= lastuse (bc k j)) /\
   (forall j, 0 <= j < idx -> refcnt (bc k j) = 0 -> least < lastuse (bc k j))).

(** The buffer written by the recycling path (lines 105-110). *)
Definition recycled (b : buf) (dv bn t : Z) : buf :=
  mkBuf 0 dv bn (lock b) 1 t (data b).

(** What [bget] maintains about identities: a slot either still carries
    the (0, 0) of the zeroed array or sits in the bucket of its block, and
    two slots of one bucket share no identity but (0, 0). *)
Definition ident_inv (bc : bcache) : Prop :=
  (forall k i, in_cache k i ->
     ident (bc k i) = (0, 0) \/ hash (blockno (bc k i)) = k) /\
  (forall k i j, in_cache k i -> in_cache k j -> i <> j ->
     ident (bc k i) = ident (bc k j) -> ident (bc k i) = (0, 0)).

Definition same_idents (bc bc' : bcache) : Prop :=
  forall k i, ident (bc' k i) = ident (bc k i).

(** A request to [bget]: process, device, block number and the tick at
    which it is served. *)
Definition rq_pid (x : Z * Z * Z * Z) : Z := fst (fst (fst x)).
Definition rq_dev (x : Z * Z * Z * Z) : Z := snd (fst (fst x)).
Definition rq_blockno (x : Z * Z * Z * Z) : Z := snd (fst x).
Definition rq_tick (x : Z * Z * Z * Z) : Z := snd x.

Fixpoint zseq (n : Z) (m : nat) : list Z :=
  match m with
  | O => []
  | S m' => n :: zseq (n + 1) m'
  end.

(** Bucket [k] after the requests [f 0 .. f (n-1)] were served from boot
    and are held: slot [j] below [n] holds the block of [f j], the slots
    from [n] on are as [binit] left them. *)
Definition filled (bc : bcache) (k : Z) (f : Z -> Z * Z * Z * Z) (n : Z) : Prop :=
  forall j, 0 <= j < BUFFERSIZE ->
    (j < n ->
       ident (bc k j) = (rq_dev (f j), rq_blockno (f j)) /\ refcnt (bc k j) = 1 /\
       lock (bc k j) = mkSleeplock true (rq_pid (f j)) /\ lastuse (bc k j) = rq_tick (f j)) /\
    (n <= j ->
       ident (bc k j) = (0, 0) /\ refcnt (bc k j) = 0 /\ lastuse (bc k j) = 0 /\
       locked (lock (bc k j)) = false).

(** The state a call leaves behind. *)
Definition state_of {A : Type} (r : result bcache A) : bcache :=
  match r with
  | Ok s _ => s
  | Parked s => s
  | _ => bss
  end.

(** Seven blocks of device 1 that hash to bucket 0, acquired by process 1
    at tick [t0] (the first) and [t] (the others). *)
Definition seven_blocks (t0 t : Z) : list (Z * Z * Z * Z) :=
  [(1, 1, 0, t0); (1, 1, 13, t); (1, 1, 26, t); (1, 1, 39, t);
   (1, 1, 52, t); (1, 1, 65, t); (1, 1, 78, t)].

(** Scenario A: bucket 0 filled from boot, nothing released. *)
Definition full_cache (t0 t : Z) : bcache :=
  state_of (acquire_all (binit bss) (seven_blocks t0 t)).

(** Block 0 acquired at tick [t0] and released, then the six others
    acquired and held. *)
Definition one_free_cache (t0 t : Z) : bcache :=
  let bc1 := state_of (bget (binit bss) 1 1 0 t0) in
  let bc2 := state_of (brelse bc1 1 (0, 0)) in
  state_of (acquire_all bc2 (tl (seven_blocks t0 t))).

End Bio.

(* ================================================================== *)
(** * Physical page allocator *)

Module Kalloc.

(** "Allocates whole 4096-byte pages." *)
Definition PGSIZE : Z := 4096.

(** param.h, memlayout.h and the linker script are not among the
    sources: the number of processors, the first address after the
    kernel ([end]) and the end of physical memory are parameters. *)
Class Layout : Type := mkLayout {
  NCPU : Z;
  KEND : Z;
  PHYSTOP : Z
}.

(** Modelled from the spec: riscv.h is not among the sources;
    [PGROUNDUP] rounds an address up to the next page boundary. *)
Definition PGROUNDUP (sz : Z) : Z :=
  Z.land (sz + PGSIZE - 1) (Z.lnot (PGSIZE - 1)).

(** [kmem[c].freelist] for every processor, and memory as far as the
    allocator reads it: [next a] is the word a [struct run *] equal to
    [a] points at.  0 is the null pointer. *)
Record kmem : Type := mkKmem {
  freelist : Z -> Z;
  next : Z -> Z
}.

(** The word read from memory filled with the byte [c]. *)
Definition fill (c : Z) : Z := c * 0x0101010101010101.

(** [memset(pa, c, PGSIZE)] *)
Definition memset (m : Z -> Z) (pa c : Z) : Z -> Z :=
  fun a => if (pa <=? a) && (a + 8 <=? pa + PGSIZE) then fill c else m a.

Definition store (m : Z -> Z) (a v : Z) : Z -> Z :=
  fun a' => if a' =? a then v else m a'.

Definition set_head (f : Z -> Z) (c v : Z) : Z -> Z :=
  fun c' => if c' =? c then v else f c'.


Section WithLayout.
Context {L : Layout}.

(** Modelled from the spec: the memory map is not among the sources.
    Physical memory ends at [PHYSTOP]; reading [r->next] through a
    pointer at or beyond it is a fault. *)
Definition load (s : kmem) (a : Z) : option Z :=
  if (0 <=? a) && (a <? PHYSTOP) then Some (next s a) else None.

(** [kfree] on processor [cpu] (the value of [cpuid()]). *)
Definition kfree (s : kmem) (cpu pa : Z) : result kmem unit :=
  if negb (pa mod PGSIZE =? 0) || (pa <? KEND) || (pa >=? PHYSTOP)
  then Panic "kfree"
  else
    let m1 := memset (next s) pa 1 in
    let m2 := store m1 pa (freelist s cpu) in
    Ok (mkKmem (set_head (freelist s) cpu pa) m2) tt.

(** One locked visit of pool [c] (lines 91-95 and 99-104): take the head
    if there is one. *)
Definition pop (s : kmem) (c : Z) : result kmem Z :=
  let r := freelist s c in
  if r =? 0 then Ok s 0
  else
    match load s r with
    | Some nx => Ok (mkKmem (set_head (freelist s) c nx) (next s)) r
    | None => Fault
    end.

(** The stealing loop (lines 97-108), [n] iterations left, at [i]. *)
Fixpoint steal (s : kmem) (cpu : Z) (n : nat) (i : Z) : result kmem Z :=
  match n with
  | O => Ok s 0
  | S n' =>
      match pop s ((cpu + i) mod NCPU) with
      | Ok s1 r => if r =? 0 then steal s1 cpu n' (i + 1) else Ok s1 r
      | Panic m => Panic m
      | Parked s1 => Parked s1
      | Fault => Fault
      end
  end.

(** [kalloc] on processor [cpu]; the result 0 is the null pointer. *)
Definition kalloc (s : kmem) (cpu : Z) : result kmem Z :=
  match pop s cpu with
  | Ok s1 r =>
      match (if r =? 0 then steal s1 cpu (Z.to_nat (NCPU - 1)) 1 else Ok s1 r) with
      | Ok s2 r2 =>
          if r2 =? 0 then Ok s2 0
          else Ok (mkKmem (freelist s2) (memset (next s2) r2 5)) r2
      | Panic m => Panic m
      | Parked s2 => Parked s2
      | Fault => Fault
      end
  | Panic m => Panic m
  | Parked s1 => Parked s1
  | Fault => Fault
  end.

(** The loop of [freerange], [n] iterations left. *)
Fixpoint freerange_loop (n : nat) (s : kmem) (cpu p pa_end : Z) : result kmem unit :=
  match n with
  | O => Ok s tt
  | S n' =>
      if p + PGSIZE <=? pa_end then
        match kfree s cpu p with
        | Ok s1 _ => freerange_loop n' s1 cpu (p + PGSIZE) pa_end
        | Panic m => Panic m
        | Parked s1 => Parked s1
        | Fault => Fault
        end
      else Ok s tt
  end.

Definition freerange (s : kmem) (cpu pa_start pa_end : Z) : result kmem unit :=
  let p := PGROUNDUP pa_start in
  freerange_loop (Z.to_nat ((pa_end - p) / PGSIZE)) s cpu p pa_end.

Definition kinit (s : kmem) (cpu : Z) : result kmem unit :=
  freerange s cpu KEND PHYSTOP.

(** [n] calls of [kalloc] in a row on processor [cpu], with what they
    return. *)
Fixpoint allocs (s : kmem) (cpu : Z) (n : nat) : result kmem (list Z) :=
  match n with
  | O => Ok s []
  | S n' =>
      match kalloc s cpu with
      | Ok s1 r =>
          match allocs s1 cpu n' with
          | Ok s2 l => Ok s2 (r :: l)
          | Panic m => Panic m
          | Parked s2 => Parked s2
          | Fault => Fault
          end
      | Panic m => Panic m
      | Parked s1 => Parked s1
      | Fault => Fault
      end
  end.

(** ** Specification vocabulary *)

(** The validity [kfree] checks. *)
Definition page_ok (pa : Z) : Prop :=
  pa mod PGSIZE = 0 /\ KEND <= pa /\ pa < PHYSTOP.

(** Before [kinit]: the pool heads are in zeroed static storage, memory
    holds anything. *)
Definition boot (s : kmem) : Prop := forall c, freelist s c = 0.

(** States reached by any calls that return. *)
Inductive reachable : kmem -> Prop :=
| reach_boot s : boot s -> reachable s
| reach_kfree s cpu pa s' : reachable s -> kfree s cpu pa = Ok s' tt -> reachable s'
| reach_kalloc s cpu s' r : reachable s -> kalloc s cpu = Ok s' r -> reachable s'.

(** The chain of pages that starts at the pointer [h]. *)
Inductive is_list (m : Z -> Z) : Z -> list Z -> Prop :=
| is_list_nil : is_list m 0 []
| is_list_cons h l : h <> 0 -> is_list m (m h) l -> is_list m h (h :: l).

(** Page [p] is on the chain that starts at [h]. *)
Inductive on_list (m : Z -> Z) : Z -> Z -> Prop :=
| on_list_here h : h <> 0 -> on_list m h h
| on_list_next h p : h <> 0 -> on_list m (m h) p -> on_list m h p.

Definition is_free (s : kmem) (p : Z) : Prop :=
  exists c, on_list (next s) (freelist s c) p.

(** The pools are the finite chains [ls] of valid pages, and no page
    occurs twice, neither within a pool nor in two pools. *)
Definition pools (ls : Z -> list Z) (s : kmem) : Prop :=
  (forall c, is_list (next s) (freelist s c) (ls c)) /\
  (forall c p, In p (ls c) -> page_ok p) /\
  (forall c, NoDup (ls c)) /\
  (forall c1 c2 p, c1 <> c2 -> In p (ls c1) -> ~ In p (ls c2)).

Definition disjoint_pools (s : kmem) : Prop := exists ls, pools ls s.

Definition set_pool (ls : Z -> list Z) (c : Z) (l : list Z) : Z -> list Z :=
  fun c' => if c' =? c then l else ls c'.

(** A pointer the allocator can hold: null, the fill pattern [kalloc]
    leaves in a page it hands out, or a page of the set [F]. *)
Definition okptr (F : Z -> Prop) (x : Z) : Prop :=
  x = 0 \/ x = fill 5 \/ F x.

(** Every pool head, and the link of every page that was ever freed
    ([F]), is such a pointer. *)
Definition links_ok (F : Z -> Prop) (s : kmem) : Prop :=
  (forall p, F p -> page_ok p) /\
  (forall c, okptr F (freelist s c)) /\
  (forall p, F p -> okptr F (next s p)).

Inductive event : Type :=
| Alloc (cpu r : Z)
| Free (cpu pa : Z).

(** One call that returns, whatever its argument. *)
Inductive call : kmem -> event -> kmem -> Prop :=
| call_alloc s cpu s' r : kalloc s cpu = Ok s' r -> call s (Alloc cpu r) s'
| call_free s cpu pa s' : kfree s cpu pa = Ok s' tt -> call s (Free cpu pa) s'.

(** One call of a caller that frees only pages that are not free. *)
Inductive dcall : kmem -> event -> kmem -> Prop :=
| dcall_alloc s cpu s' r : kalloc s cpu = Ok s' r -> dcall s (Alloc cpu r) s'
| dcall_free s cpu pa s' :
    ~ is_free s pa -> kfree s cpu pa = Ok s' tt -> dcall s (Free cpu pa) s'.

Inductive run (R : kmem -> event -> kmem -> Prop) : kmem -> list event -> kmem -> Prop :=
| run_nil s : run R s [] s
| run_cons s e s1 tr s' : R s e s1 -> run R s1 tr s' -> run R s (e :: tr) s'.

(** Conservation on a trace: between two allocations that return the
    page [p] there is a [free] of [p]. *)
Definition conserved (tr : list event) : Prop :=
  forall tr1 tr2 tr3 c1 c2 p, p <> 0 ->
    tr = tr1 ++ Alloc c1 p :: tr2 ++ Alloc c2 p :: tr3 ->
    exists c, In (Free c p) tr2.

End WithLayout.

(** Eight processors and the last three pages below the [PHYSTOP] of xv6
    on qemu: a small machine for examples. *)
Definition tiny : Layout := mkLayout 8 0x87ffd000 0x88000000.

Definition boot0 : kmem := mkKmem (fun _ => 0) (fun _ => 0).

(** The state a call leaves behind. *)
Definition state_of {A : Type} (r : result kmem A) : kmem :=
  match r with
  | Ok s _ => s
  | Parked s => s
  | _ => boot0
  end.

(** The last page of [tiny], freed twice on processor 0, and the two
    allocations that follow. *)
Definition twice_freed : kmem :=
  state_of (@kfree tiny (state_of (@kfree tiny boot0 0 0x87fff000)) 0 0x87fff000).
Definition twice_freed_1 : kmem := state_of (@kalloc tiny twice_freed 0).
Definition twice_freed_2 : kmem := state_of (@kalloc tiny twice_freed_1 0).

(** Scenario C on [tiny]: two pages in the pool of processor 0. *)
Definition two_pages : kmem :=
  state_of (@kfree tiny (state_of (@kfree tiny boot0 0 0x87ffe000)) 0 0x87fff000).

End Kalloc.

(* ================================================================== *)
(** * Properties of the buffer cache *)

(** Case analysis on every integer comparison of the goal. *)
Ltac zbool :=
  repeat match goal with
         | |- context [?a <=? ?b] => destruct (Z.leb_spec a b)
         | |- context [?a <? ?b] => destruct (Z.ltb_spec a b)
         | |- context [?a =? ?b] => destruct (Z.eqb_spec a b)
         end;
  simpl; try reflexivity; try lia.

Module BioFacts.
Import Bio.

Lemma upd_same bc k i b : upd bc k i b k i = b.
Proof. unfold upd. now rewrite !Z.eqb_refl. Qed.

Lemma upd_other bc k i b k' i' : (k', i') <> (k, i) -> upd bc k i b k' i' = bc k' i'.
Proof.
  intros H. unfold upd.
  destruct (Z.eqb_spec k' k); destruct (Z.eqb_spec i' i); simpl; try reflexivity.
  subst. now destruct H.
Qed.

Lemma upd_other_bucket bc k i b k' i' : k' <> k -> upd bc k i b k' i' = bc k' i'.
Proof. intros H. apply upd_other. congruence. Qed.

Lemma upd_other_slot bc k i b i' : i' <> i -> upd bc k i b k i' = bc k i'.
Proof. intros H. apply upd_other. congruence. Qed.

(** ** binit *)

Lemma binit_bucket_loop bc k n j0 k' i' :
  for_loop n j0 (fun j bc => upd bc k j (binit_slot (bc k j))) bc k' i' =
  if (k' =? k) && (j0 <=? i') && (i' <? j0 + Z.of_nat n)
  then binit_slot (bc k' i') else bc k' i'.
Proof.
  revert bc j0. induction n as [|n IH]; intros bc j0.
  - simpl. zbool.
  - cbn [for_loop]. rewrite IH.
    destruct (Z.eqb_spec k' k) as [->|Hk]; simpl.
    + destruct (Z.eq_dec i' j0) as [->|Hi].
      * rewrite upd_same. zbool.
      * rewrite upd_other_slot by assumption. zbool.
    + now rewrite upd_other_bucket by assumption.
Qed.

Lemma binit_loop bc n k0 k' i' :
  for_loop n k0 binit_bucket bc k' i' =
  if (k0 <=? k') && (k' <? k0 + Z.of_nat n) && (0 <=? i') && (i' <? BUFFERSIZE)
  then binit_slot (bc k' i') else bc k' i'.
Proof.
  revert bc k0. induction n as [|n IH]; intros bc k0.
  - simpl. zbool.
  - cbn [for_loop]. rewrite IH. unfold binit_bucket. rewrite !binit_bucket_loop.
    change (0 + Z.of_nat (Z.to_nat BUFFERSIZE)) with BUFFERSIZE.
    zbool.
Qed.

Lemma binit_at bc k i :
  in_cache k i -> binit bc k i = binit_slot (bc k i).
Proof.
  intros [Hk Hi]. unfold binit. rewrite binit_loop.
  change (0 + Z.of_nat (Z.to_nat BUCKETSIZE)) with BUCKETSIZE.
  zbool.
Qed.

Lemma binit_bss_ident k i : ident (binit bss k i) = (0, 0).
Proof.
  unfold binit. rewrite binit_loop.
  destruct (_ && _); reflexivity.
Qed.

(** ** The two loops of bget *)

Lemma find_cached_none bc k dv bn n i0 :
  find_cached bc k dv bn n i0 = None <->
  (forall j, i0 <= j < i0 + Z.of_nat n -> ident (bc k j) <> (dv, bn)).
Proof.
  revert i0. induction n as [|n IH]; intros i0; cbn [find_cached].
  - split; [intros _ j Hj; lia | reflexivity].
  - unfold ident in *.
    destruct (Z.eqb_spec (dev (bc k i0)) dv) as [Hd|Hd];
      destruct (Z.eqb_spec (blockno (bc k i0)) bn) as [Hb|Hb]; simpl.
    + split; [discriminate|]. intros H. exfalso. apply (H i0); [lia | congruence].
    + rewrite IH. split; intros H j Hj.
      * destruct (Z.eq_dec j i0) as [->|]; [congruence | apply H; lia].
      * apply H; lia.
    + rewrite IH. split; intros H j Hj.
      * destruct (Z.eq_dec j i0) as [->|]; [congruence | apply H; lia].
      * apply H; lia.
    + rewrite IH. split; intros H j Hj.
      * destruct (Z.eq_dec j i0) as [->|]; [congruence | apply H; lia].
      * apply H; lia.
Qed.

Lemma find_cached_some bc k dv bn n i0 i :
  find_cached bc k dv bn n i0 = Some i <->
  (i0 <= i < i0 + Z.of_nat n /\ ident (bc k i) = (dv, bn) /\
   forall j, i0 <= j < i -> ident (bc k j) <> (dv, bn)).
Proof.
  revert i0. induction n as [|n IH]; intros i0; cbn [find_cached].
  - split; [discriminate | intros [H _]; lia].
  - unfold ident in *.
    destruct ((dev (bc k i0) =? dv) && (blockno (bc k i0) =? bn)) eqn:E.
    + apply andb_true_iff in E. destruct E as [Ed Eb].
      apply Z.eqb_eq in Ed, Eb.
      split.
      * intros [= <-]. split; [lia|]. split; [congruence | intros j Hj; lia].
      * intros (Hr & _ & Hfirst).
        destruct (Z.eq_dec i i0) as [->|Hne]; [reflexivity|].
        exfalso. apply (Hfirst i0); [lia | congruence].
    + assert (Hno : (dev (bc k i0), blockno (bc k i0)) <> (dv, bn)).
      { intros [= Hd Hb]. rewrite Hd, Hb, !Z.eqb_refl in E. discriminate. }
      rewrite IH. split.
      * intros (Hr & Hm & Hfirst). split; [lia|]. split; [assumption|].
        intros j Hj. destruct (Z.eq_dec j i0) as [->|]; [assumption | apply Hfirst; lia].
      * intros (Hr & Hm & Hfirst).
        assert (i <> i0) by (intros ->; contradiction).
        split; [lia|]. split; [assumption | intros j Hj; apply Hfirst; lia].
Qed.

Lemma find_lru_inv bc k n i least idx :
  0 <= i -> lru_inv bc k i least idx ->
  exists least', lru_inv bc k (i + Z.of_nat n) least'
                         (find_lru bc k n i least idx).
Proof.
  revert i least idx. induction n as [|n IH]; intros i least idx Hi H; cbn [find_lru].
  - exists least. now replace (i + Z.of_nat 0) with i by lia.
  - replace (i + Z.of_nat (S n)) with (i + 1 + Z.of_nat n) by lia.
    destruct (Z.eqb_spec (refcnt (bc k i)) 0) as [Hr|Hr];
      destruct (Z.ltb_spec (lastuse (bc k i)) least) as [Hl|Hl]; simpl;
      apply IH; try lia.
    + (* slot i becomes the candidate *)
      right. destruct H as [(-> & -> & Hnone) | (Hidx & Hr0 & Hlu & Hlt & Hmin & Hfirst)].
      * repeat split; try lia; try assumption.
        -- intros j Hj Hrj. destruct (Z.eq_dec j i) as [->|]; [lia|].
           destruct (Z_lt_le_dec (lastuse (bc k j)) UINT_MAX); [|lia].
           exfalso. apply (Hnone j); [lia | now split].
        -- intros j Hj Hrj.
           destruct (Z_lt_le_dec (lastuse (bc k j)) UINT_MAX); [|lia].
           exfalso. apply (Hnone j); [lia | now split].
      * repeat split; try lia; try assumption.
        -- intros j Hj Hrj. destruct (Z.eq_dec j i) as [->|]; [lia|].
           specialize (Hmin j ltac:(lia) Hrj). lia.
        -- intros j Hj Hrj. specialize (Hmin j ltac:(lia) Hrj). lia.
    + destruct H as [(-> & -> & Hnone) | (Hidx & Hr0 & Hlu & Hlt & Hmin & Hfirst)].
      * left. repeat split; try reflexivity.
        intros j Hj [Hrj Hlj]. destruct (Z.eq_dec j i) as [->|]; [lia|].
        apply (Hnone j); [lia | now split].
      * right. repeat split; try lia; try assumption.
        intros j Hj Hrj. destruct (Z.eq_dec j i) as [->|]; [lia|]. apply Hmin; [lia|assumption].
    + destruct H as [(-> & -> & Hnone) | (Hidx & Hr0 & Hlu & Hlt & Hmin & Hfirst)].
      * left. repeat split; try reflexivity.
        intros j Hj [Hrj Hlj]. destruct (Z.eq_dec j i) as [->|]; [contradiction|].
        apply (Hnone j); [lia | now split].
      * right. repeat split; try lia; try assumption.
        intros j Hj Hrj. destruct (Z.eq_dec j i) as [->|]; [contradiction|]. apply Hmin; [lia|assumption].
    + destruct H as [(-> & -> & Hnone) | (Hidx & Hr0 & Hlu & Hlt & Hmin & Hfirst)].
      * left. repeat split; try reflexivity.
        intros j Hj [Hrj Hlj]. destruct (Z.eq_dec j i) as [->|]; [contradiction|].
        apply (Hnone j); [lia | now split].
      * right. repeat split; try lia; try assumption.
        intros j Hj Hrj. destruct (Z.eq_dec j i) as [->|]; [contradiction|]. apply Hmin; [lia|assumption].
Qed.

(** The second loop: it yields -1 exactly when no unreferenced slot has a
    last-use below [UINT_MAX], and otherwise the least recently used
    unreferenced slot. *)
Lemma find_lru_spec bc k :
  let r := find_lru bc k (Z.to_nat BUFFERSIZE) 0 UINT_MAX (-1) in
  (r = -1 /\
   forall j, 0 <= j < BUFFERSIZE -> ~ (refcnt (bc k j) = 0 /\ lastuse (bc k j) < UINT_MAX))
  \/ (lru_slot bc k r /\ lastuse (bc k r) < UINT_MAX).
Proof.
  intros r.
  destruct (find_lru_inv bc k (Z.to_nat BUFFERSIZE) 0 UINT_MAX (-1)) as [least H].
  - lia.
  - left. repeat split; try reflexivity. intros j Hj. lia.
  - change (0 + Z.of_nat (Z.to_nat BUFFERSIZE)) with BUFFERSIZE in H.
    fold r in H.
    destruct H as [(Hr & _ & Hnone) | (Hidx & Hr0 & Hlu & Hlt & Hmin & Hfirst)].
    + left. now split.
    + right. unfold lru_slot. rewrite Hlu. repeat split; try lia; assumption.
Qed.

Lemma lru_slot_unique bc k i j : lru_slot bc k i -> lru_slot bc k j -> i = j.
Proof.
  intros (Hi & Hri & Hmi & Hfi) (Hj & Hrj & Hmj & Hfj).
  destruct (Z.lt_trichotomy i j) as [Hlt | [Heq | Hgt]]; [|assumption|].
  - specialize (Hfj i ltac:(lia) Hri). specialize (Hmi j Hj Hrj). lia.
  - specialize (Hfi j ltac:(lia) Hrj). specialize (Hmj i Hi Hri). lia.
Qed.

Lemma no_match_find bc dv bn :
  no_match bc (hash bn) dv bn <->
  find_cached bc (hash bn) dv bn (Z.to_nat BUFFERSIZE) 0 = None.
Proof.
  rewrite find_cached_none.
  change (0 + Z.of_nat (Z.to_nat BUFFERSIZE)) with BUFFERSIZE. reflexivity.
Qed.

(** When the miss path returns, the slot it
    recycles is the least recently used unreferenced one. *)
Lemma bget_locked_miss bc dv bn t bc' bp :
  no_match bc (hash bn) dv bn ->
  bget_locked bc dv bn t = Ok bc' bp ->
  fst bp = hash bn /\ lru_slot bc (hash bn) (snd bp) /\
  lastuse (bc (hash bn) (snd bp)) < UINT_MAX /\
  bc' = upd bc (hash bn) (snd bp) (recycled (bc (hash bn) (snd bp)) dv bn t).
Proof.
  intros Hno. apply no_match_find in Hno. unfold bget_locked. rewrite Hno.
  destruct (find_lru_spec bc (hash bn)) as [[Hr _] | [Hlru Hlt]].
  - rewrite Hr. simpl. discriminate.
  - destruct (Z.eqb_spec (find_lru bc (hash bn) (Z.to_nat BUFFERSIZE) 0 UINT_MAX (-1)) (-1)) as [E|E].
    + destruct Hlru as [Hrange _]. lia.
    + intros [= <- <-]. simpl. repeat split; try assumption; apply Hlru.
Qed.

Lemma bget_locked_recycles bc dv bn t i :
  no_match bc (hash bn) dv bn ->
  lru_slot bc (hash bn) i -> lastuse (bc (hash bn) i) < UINT_MAX ->
  bget_locked bc dv bn t =
  Ok (upd bc (hash bn) i (recycled (bc (hash bn) i) dv bn t)) (hash bn, i).
Proof.
  intros Hno Hlru Hlt. pose proof Hno as Hno'. apply no_match_find in Hno'.
  unfold bget_locked. rewrite Hno'.
  destruct (find_lru_spec bc (hash bn)) as [[Hr Hnone] | [Hlru' Hlt']].
  - exfalso. apply (Hnone i); [apply Hlru | split; [apply Hlru | assumption]].
  - rewrite <- (lru_slot_unique _ _ _ _ Hlru Hlru').
    destruct (Z.eqb_spec i (-1)) as [E|E]; [destruct Hlru; lia | reflexivity].
Qed.

(** Resource exhaustion: no unreferenced slot with a last-use below
    [UINT_MAX] and no match is fatal; no other bucket is looked at. *)
Lemma bget_locked_exhausted bc dv bn t :
  no_match bc (hash bn) dv bn ->
  (forall j, 0 <= j < BUFFERSIZE ->
     ~ (refcnt (bc (hash bn) j) = 0 /\ lastuse (bc (hash bn) j) < UINT_MAX)) ->
  bget_locked bc dv bn t = Panic "do not have enough free buffer".
Proof.
  intros Hno Hnone. apply no_match_find in Hno. unfold bget_locked. rewrite Hno.
  destruct (find_lru_spec bc (hash bn)) as [[Hr _] | [Hlru Hlt]].
  - now rewrite Hr.
  - exfalso. apply (Hnone _ (proj1 Hlru)). split; [apply Hlru | assumption].
Qed.

Lemma bget_locked_hit bc dv bn t bc' bp :
  ~ no_match bc (hash bn) dv bn ->
  bget_locked bc dv bn t = Ok bc' bp ->
  fst bp = hash bn /\ 0 <= snd bp < BUFFERSIZE /\
  ident (bc (hash bn) (snd bp)) = (dv, bn) /\
  (forall j, 0 <= j < snd bp -> ident (bc (hash bn) j) <> (dv, bn)) /\
  bc' = upd bc (hash bn) (snd bp)
            (set_lastuse (set_refcnt (bc (hash bn) (snd bp))
                                     (wrap32 (refcnt (bc (hash bn) (snd bp)) + 1))) t).
Proof.
  intros Hm. unfold bget_locked.
  destruct (find_cached bc (hash bn) dv bn (Z.to_nat BUFFERSIZE) 0) as [i|] eqn:E.
  - apply find_cached_some in E.
    change (0 + Z.of_nat (Z.to_nat BUFFERSIZE)) with BUFFERSIZE in E.
    destruct E as (Hr & Hid & Hfirst).
    intros [= <- <-]. simpl. repeat split; try lia; try assumption.
  - apply no_match_find in E. contradiction.
Qed.

Lemma no_match_dec bc k dv bn : no_match bc k dv bn \/ ~ no_match bc k dv bn.
Proof.
  destruct (find_cached bc k dv bn (Z.to_nat BUFFERSIZE) 0) eqn:E.
  - right. intros H.
    assert (find_cached bc k dv bn (Z.to_nat BUFFERSIZE) 0 = None)
      by (apply find_cached_none; exact H).
    congruence.
  - left. exact (proj1 (find_cached_none bc k dv bn _ 0) E).
Qed.

Lemma lock_buf_ok bc p bp bc' bp' :
  lock_buf bc p bp = Ok bc' bp' ->
  bp' = bp /\ locked (lock (bc (fst bp) (snd bp))) = false /\
  bc' = upd bc (fst bp) (snd bp) (set_lock (bc (fst bp) (snd bp)) (mkSleeplock true p)).
Proof.
  unfold lock_buf, acquiresleep.
  destruct (locked (lock (bc (fst bp) (snd bp)))); [discriminate|].
  intros [= <- <-]. auto.
Qed.

Lemma bget_ok bc p dv bn t bc' bp :
  bget bc p dv bn t = Ok bc' bp ->
  exists bc0, bget_locked bc dv bn t = Ok bc0 bp /\ lock_buf bc0 p bp = Ok bc' bp.
Proof.
  unfold bget. destruct (bget_locked bc dv bn t) as [bc0 bp0| | |] eqn:E; try discriminate.
  intros H. destruct (lock_buf_ok _ _ _ _ _ H) as [-> _]. eauto.
Qed.

(** Reading back the slot just written. *)
Ltac upd_read :=
  repeat match goal with
         | |- context [upd ?bc ?k ?i ?b ?k ?i] => rewrite (upd_same bc k i b)
         end.

(** An index below [BUFFERSIZE] is one of seven. *)
Ltac slots j H :=
  assert (j = 0 \/ j = 1 \/ j = 2 \/ j = 3 \/ j = 4 \/ j = 5 \/ j = 6)
    as [-> | [-> | [-> | [-> | [-> | [-> | ->]]]]]] by (unfold BUFFERSIZE in H; lia).

(** ** Recycling on the concrete caches *)

Lemma acquire_all_reachable dsk l : forall bc bc',
  reachable (mkWorld bc dsk []) -> acquire_all bc l = Ok bc' tt ->
  reachable (mkWorld bc' dsk []).
Proof.
  induction l as [|[[[p dv] bn] t] l IH]; intros bc bc' R; cbn [acquire_all].
  - intros [= <-]. exact R.
  - destruct (bget bc p dv bn t) as [bc1 bp| | |] eqn:E; try discriminate.
    apply IH.
    exact (reach_step _ _ R (step_bget (mkWorld bc dsk []) p dv bn t bc1 bp E)).
Qed.

Lemma one_free_cache_reachable dsk :
  reachable (mkWorld (one_free_cache UINT_MAX 5) dsk []).
Proof.
  set (bc1 := state_of (bget (binit bss) 1 1 0 UINT_MAX)).
  set (bc2 := state_of (brelse bc1 1 (0, 0))).
  assert (R1 : reachable (mkWorld bc1 dsk [])).
  { refine (reach_step _ _ (reach_init dsk)
              (step_bget (init_world dsk) 1 1 0 UINT_MAX bc1 (0, 0) _)).
    vm_compute. reflexivity. }
  assert (R2 : reachable (mkWorld bc2 dsk [])).
  { refine (reach_step _ _ R1 (step_brelse (mkWorld bc1 dsk []) 1 (0, 0) bc2 _)).
    vm_compute. reflexivity. }
  apply (acquire_all_reachable dsk (tl (seven_blocks UINT_MAX 5)) bc2); [exact R2|].
  vm_compute. reflexivity.
Qed.

(** C1: on a miss the slot recycled is, among the unreferenced slots of
    the bucket, the one with the smallest last-use, the lowest index among
    equals.  The code misses one case: in the cache below slot 0 of
    bucket 0 is the only unreferenced slot, so it is the one the claim
    selects, but its last-use equals the initial value 0xffffffff of
    [least], the strict comparison of the loop rejects it, and [bget]
    panics instead of recycling it.  The cache is reached from boot by
    one acquisition at tick 0xffffffff, its release, and six more
    acquisitions. *)
Theorem bget_lru_sentinel :
  (forall dsk, reachable (mkWorld (one_free_cache UINT_MAX 5) dsk [])) /\
  no_match (one_free_cache UINT_MAX 5) (hash 91) 1 91 /\
  lru_slot (one_free_cache UINT_MAX 5) (hash 91) 0 /\
  (forall j, 0 < j < BUFFERSIZE -> refcnt (one_free_cache UINT_MAX 5 (hash 91) j) = 1) /\
  bget (one_free_cache UINT_MAX 5) 1 1 91 6 = Panic "do not have enough free buffer".
Proof.
  split; [exact one_free_cache_reachable|]. split; [|split; [|split]].
  - intros j Hj. slots j Hj; vm_compute; discriminate.
  - unfold lru_slot. split; [unfold BUFFERSIZE; lia|].
    split; [vm_compute; reflexivity|]. split.
    + intros j Hj. slots j Hj; vm_compute; intros; discriminate.
    + intros j Hj. lia.
  - intros j Hj.
    assert (j = 1 \/ j = 2 \/ j = 3 \/ j = 4 \/ j = 5 \/ j = 6)
      as [-> | [-> | [-> | [-> | [-> | ->]]]]] by (unfold BUFFERSIZE in Hj; lia);
      vm_compute; reflexivity.
  - vm_compute. reflexivity.
Qed.

(** Away from that value the miss path recycles as intended: with an
    unreferenced slot whose last-use is below 0xffffffff the call does
    not panic, and the slot it recycles is the least recently used
    unreferenced one and gets the new identity, invalid, one reference. *)
Lemma bget_recycles_lru bc dv bn t :
  no_match bc (hash bn) dv bn ->
  (exists j, 0 <= j < BUFFERSIZE /\ refcnt (bc (hash bn) j) = 0 /\
             lastuse (bc (hash bn) j) < UINT_MAX) ->
  exists i bc',
    bget_locked bc dv bn t = Ok bc' (hash bn, i) /\
    lru_slot bc (hash bn) i /\
    ident (bc' (hash bn) i) = (dv, bn) /\ valid (bc' (hash bn) i) = 0 /\
    refcnt (bc' (hash bn) i) = 1 /\
    (forall k j, (k, j) <> (hash bn, i) -> bc' k j = bc k j).
Proof.
  intros Hno (j & Hj & Hrj & Hlj).
  destruct (find_lru_spec bc (hash bn)) as [[_ Hnone] | [Hlru Hlt]].
  - exfalso. apply (Hnone j Hj). now split.
  - eexists _, _. split; [apply bget_locked_recycles; eassumption|].
    split; [assumption|]. rewrite upd_same. repeat split.
    intros k j' Hne. now apply upd_other.
Qed.

(** C2: with seven slots per bucket, seven distinct blocks of one bucket
    acquired and none released make an eighth fatal, and after the release
    of one of them the eighth succeeds in the released slot.  The first
    half holds.  The second fails when the released buffer was acquired at
    tick 0xffffffff (the same missed case as for C1): the retry is fatal
    again.  With that buffer acquired at tick 5 the retry returns slot 0,
    the released one. *)
Theorem scenario_A_sentinel :
  acquire_all (binit bss) (seven_blocks UINT_MAX 5) = Ok (full_cache UINT_MAX 5) tt /\
  bget (full_cache UINT_MAX 5) 1 1 91 6 = Panic "do not have enough free buffer" /\
  (exists bc, brelse (full_cache UINT_MAX 5) 1 (0, 0) = Ok bc tt) /\
  bget (state_of (brelse (full_cache UINT_MAX 5) 1 (0, 0))) 1 1 91 6
  = Panic "do not have enough free buffer" /\
  (exists bc, bget (state_of (brelse (full_cache 5 5) 1 (0, 0))) 1 1 91 6 = Ok bc (0, 0)).
Proof.
  split; [vm_compute; reflexivity|]. split; [vm_compute; reflexivity|].
  split; [|split; [vm_compute; reflexivity|]].
  - exists (state_of (brelse (full_cache UINT_MAX 5) 1 (0, 0))). vm_compute. reflexivity.
  - exists (state_of (bget (state_of (brelse (full_cache 5 5) 1 (0, 0))) 1 1 91 6)).
    vm_compute. reflexivity.
Qed.

(** The scenario at any other tick: the eighth block is fatal while all
    seven are held ... *)
Lemma bget_all_held_panics bc p dv bn t :
  no_match bc (hash bn) dv bn ->
  (forall j, 0 <= j < BUFFERSIZE -> refcnt (bc (hash bn) j) <> 0) ->
  bget bc p dv bn t = Panic "do not have enough free buffer".
Proof.
  intros Hno Hheld. unfold bget. rewrite bget_locked_exhausted; auto.
  intros j Hj [Hr _]. now apply (Hheld j).
Qed.

(** ... and succeeds in the released slot after one release. *)
Lemma bget_after_brelse bc p i bc1 p' dv bn t :
  0 <= i < BUFFERSIZE ->
  (forall j, 0 <= j < BUFFERSIZE -> j <> i -> refcnt (bc (hash bn) j) <> 0) ->
  refcnt (bc (hash bn) i) = 1 -> lastuse (bc (hash bn) i) < UINT_MAX ->
  no_match bc (hash bn) dv bn ->
  brelse bc p (hash bn, i) = Ok bc1 tt ->
  exists bc2, bget bc1 p' dv bn t = Ok bc2 (hash bn, i) /\
              ident (bc2 (hash bn) i) = (dv, bn) /\ refcnt (bc2 (hash bn) i) = 1.
Proof.
  intros Hi Hheld Hr Hl Hno Hrel.
  unfold brelse in Hrel. cbn [fst snd] in Hrel.
  destruct (negb _); [discriminate|]. injection Hrel as <-.
  set (b1 := set_lock _ _).
  assert (Hno1 : no_match (upd bc (hash bn) i b1) (hash bn) dv bn).
  { intros j Hj. destruct (Z.eq_dec j i) as [->|Hne].
    - rewrite upd_same. apply (Hno i Hi).
    - rewrite upd_other_slot by assumption. now apply Hno. }
  assert (Hlru : lru_slot (upd bc (hash bn) i b1) (hash bn) i).
  { unfold lru_slot. rewrite upd_same. split; [assumption|]. split.
    - subst b1. cbn. now rewrite Hr.
    - split; intros j Hj Hrj; destruct (Z.eq_dec j i) as [->|Hne];
        try (rewrite upd_same; lia); try lia;
        rewrite upd_other_slot in Hrj by assumption;
        exfalso; apply (Hheld j); try assumption; lia. }
  unfold bget. rewrite (bget_locked_recycles _ dv bn t i Hno1 Hlru)
    by (rewrite upd_same; exact Hl).
  unfold lock_buf. cbn [fst snd]. rewrite !upd_same.
  eexists. split; [reflexivity|]. rewrite upd_same. split; reflexivity.
Qed.

(** ** Scenario A in general *)

Lemma filled_boot k f : filled (binit bss) k f 0.
Proof.
  intros j Hj. split; [lia|]. intros _.
  split; [apply binit_bss_ident|].
  unfold binit. rewrite binit_loop. destruct (_ && _); repeat split.
Qed.

(** Serving the next request takes the next slot. *)
Lemma filled_step bc k f n :
  filled bc k f n -> 0 <= n < BUFFERSIZE ->
  hash (rq_blockno (f n)) = k ->
  (forall j, 0 <= j < n ->
     (rq_dev (f j), rq_blockno (f j)) <> (rq_dev (f n), rq_blockno (f n))) ->
  exists bc',
    bget bc (rq_pid (f n)) (rq_dev (f n)) (rq_blockno (f n)) (rq_tick (f n)) = Ok bc' (k, n) /\
    filled bc' k f (n + 1).
Proof.
  intros Hfill Hn Hk Hnew.
  destruct (Hfill n Hn) as [_ Hfresh]. destruct (Hfresh ltac:(lia)) as (Hid & Hr & Hl & Hlk).
  set (p := rq_pid (f n)) in *. set (d := rq_dev (f n)) in *.
  set (b := rq_blockno (f n)) in *. set (t := rq_tick (f n)) in *.
  assert (Hbelow : forall j, 0 <= j < n -> ident (bc k j) <> (d, b)).
  { intros j Hj. destruct (Hfill j ltac:(lia)) as [Hheld _].
    destruct (Hheld ltac:(lia)) as (-> & _). now apply Hnew. }
  assert (Hgoal : forall b',
            ident b' = (d, b) -> refcnt b' = 1 -> lastuse b' = t ->
            lock b' = lock (bc k n) ->
            bget_locked bc d b t = Ok (upd bc k n b') (k, n) ->
            exists bc', bget bc p d b t = Ok bc' (k, n) /\ filled bc' k f (n + 1)).
  { intros b' Hid' Hr' Hl' Hlk' Hcs. unfold bget. rewrite Hcs.
    unfold lock_buf, acquiresleep. cbn [fst snd]. rewrite upd_same, Hlk', Hlk.
    eexists. split; [reflexivity|].
    intros j Hj. destruct (Z.eq_dec j n) as [->|Hne].
    - rewrite !upd_same. split; [|lia]. intros _. cbn. fold p d b t. auto.
    - rewrite !upd_other_slot by assumption.
      destruct (Hfill j Hj) as [Hheld Hfree]. split; intros H; [apply Hheld | apply Hfree]; lia. }
  unfold bget_locked in Hgoal. rewrite Hk in Hgoal.
  destruct (find_cached bc k d b (Z.to_nat BUFFERSIZE) 0) as [i|] eqn:E.
  - (* the block is (0, 0) and slot n still carries that identity *)
    apply find_cached_some in E.
    change (0 + Z.of_nat (Z.to_nat BUFFERSIZE)) with BUFFERSIZE in E.
    destruct E as (Hi & Hidi & Hfirst).
    assert (i = n) as ->.
    { destruct (Z.lt_trichotomy i n) as [Hlt | [Heq | Hgt]]; [|assumption|].
      - exfalso. now apply (Hbelow i ltac:(lia)).
      - exfalso. apply (Hfirst n ltac:(lia)). rewrite Hid.
        destruct (Hfill i Hi) as [_ Hfi]. destruct (Hfi ltac:(lia)) as (<- & _). exact Hidi. }
    apply (Hgoal (set_lastuse (set_refcnt (bc k n) (wrap32 (refcnt (bc k n) + 1))) t));
      try reflexivity; try assumption.
    cbn. now rewrite Hr.
  - (* a miss: slot n is the least recently used unreferenced slot *)
    assert (Hlru : find_lru bc k (Z.to_nat BUFFERSIZE) 0 UINT_MAX (-1) = n).
    { destruct (find_lru_spec bc k) as [[_ Hnone] | [Hlru _]].
      - exfalso. apply (Hnone n Hn). rewrite Hr, Hl. unfold UINT_MAX. lia.
      - apply (lru_slot_unique bc k); [assumption|].
        unfold lru_slot. rewrite Hl. split; [assumption|]. split; [assumption|].
        split; intros j Hj Hrj.
        + destruct (Z_lt_le_dec j n) as [Hlt | Hge].
          * destruct (Hfill j Hj) as [Hheld _]. destruct (Hheld Hlt) as (_ & Hr1 & _). lia.
          * destruct (Hfill j Hj) as [_ Hfj]. destruct (Hfj Hge) as (_ & _ & -> & _). lia.
        + destruct (Hfill j ltac:(lia)) as [Hheld _].
          destruct (Hheld ltac:(lia)) as (_ & Hr1 & _). lia. }
    rewrite Hlru in Hgoal.
    destruct (Z.eqb_spec n (-1)); [lia|].
    apply (Hgoal (mkBuf 0 d b (lock (bc k n)) 1 t (data (bc k n)))); reflexivity.
Qed.

Lemma filled_run bc k f m : forall n bc0,
  bc0 = bc -> filled bc0 k f n -> 0 <= n -> n + Z.of_nat m <= BUFFERSIZE ->
  (forall j, n <= j < n + Z.of_nat m -> hash (rq_blockno (f j)) = k) ->
  (forall i j, 0 <= i < j -> j < n + Z.of_nat m ->
     (rq_dev (f i), rq_blockno (f i)) <> (rq_dev (f j), rq_blockno (f j))) ->
  exists bc', acquire_all bc0 (map f (zseq n m)) = Ok bc' tt /\
              filled bc' k f (n + Z.of_nat m).
Proof.
  revert bc. induction m as [|m IH]; intros bc n bc0 -> Hfill Hn Hm Hk Hdist.
  - exists bc. split; [reflexivity|]. now replace (n + Z.of_nat 0) with n by lia.
  - cbn [zseq map acquire_all].
    destruct (filled_step bc k f n Hfill) as (bc1 & Hget & Hfill1).
    + lia.
    + apply Hk. lia.
    + intros j Hj. apply Hdist; lia.
    + destruct (f n) as [[[p d] b] t] eqn:Efn.
      unfold rq_pid, rq_dev, rq_blockno, rq_tick in Hget. cbn [fst snd] in Hget.
      rewrite Hget.
      destruct (IH bc1 (n + 1) bc1 eq_refl Hfill1) as (bc' & Hall & Hfill').
      * lia.
      * lia.
      * intros j Hj. apply Hk. lia.
      * intros i j Hi Hj. apply Hdist; lia.
      * exists bc'. split; [exact Hall|].
        now replace (n + Z.of_nat (S m)) with (n + 1 + Z.of_nat m) by lia.
Qed.

(** X9: Scenario A for any seven distinct blocks of one bucket, whoever
    acquires them and whenever: all seven acquisitions return; an eighth
    distinct block of the bucket is fatal; after the release of one of
    the seven by its holder the eighth is served in the released slot,
    provided that buffer was not acquired at tick 0xffffffff. *)
Lemma scenario_A f k d8 b8 :
  (forall j, 0 <= j < BUFFERSIZE -> hash (rq_blockno (f j)) = k) ->
  hash b8 = k ->
  (forall i j, 0 <= i < j -> j < BUFFERSIZE ->
     (rq_dev (f i), rq_blockno (f i)) <> (rq_dev (f j), rq_blockno (f j))) ->
  (forall j, 0 <= j < BUFFERSIZE -> (rq_dev (f j), rq_blockno (f j)) <> (d8, b8)) ->
  exists bc,
    acquire_all (binit bss) (map f (zseq 0 (Z.to_nat BUFFERSIZE))) = Ok bc tt /\
    (forall p t, bget bc p d8 b8 t = Panic "do not have enough free buffer") /\
    (forall j, 0 <= j < BUFFERSIZE -> rq_tick (f j) < UINT_MAX ->
       exists bc1, brelse bc (rq_pid (f j)) (k, j) = Ok bc1 tt /\
                   forall p t, exists bc2, bget bc1 p d8 b8 t = Ok bc2 (k, j)).
Proof.
  intros Hk Hk8 Hdist Hnew.
  destruct (filled_run (binit bss) k f (Z.to_nat BUFFERSIZE) 0 (binit bss) eq_refl
              (filled_boot k f)) as (bc & Hall & Hfill).
  - lia.
  - unfold BUFFERSIZE. lia.
  - intros j Hj. apply Hk. unfold BUFFERSIZE in *. lia.
  - intros i j Hi Hj. apply Hdist; [lia|]. unfold BUFFERSIZE in *. lia.
  - change (0 + Z.of_nat (Z.to_nat BUFFERSIZE)) with BUFFERSIZE in Hfill.
    assert (Hheld : forall j, 0 <= j < BUFFERSIZE ->
              ident (bc k j) = (rq_dev (f j), rq_blockno (f j)) /\ refcnt (bc k j) = 1 /\
              lock (bc k j) = mkSleeplock true (rq_pid (f j)) /\
              lastuse (bc k j) = rq_tick (f j)).
    { intros j Hj. destruct (Hfill j Hj) as [H _]. apply H. lia. }
    assert (Hno : no_match bc (hash b8) d8 b8).
    { rewrite Hk8. intros j Hj. destruct (Hheld j Hj) as (-> & _). now apply Hnew. }
    exists bc. split; [exact Hall|]. split.
    + intros p t. apply bget_all_held_panics; [assumption|].
      rewrite Hk8. intros j Hj. destruct (Hheld j Hj) as (_ & -> & _). discriminate.
    + intros j Hj Ht. destruct (Hheld j Hj) as (_ & Hr & Hl & Hlu).
      assert (Hrel : exists bc1, brelse bc (rq_pid (f j)) (k, j) = Ok bc1 tt).
      { unfold brelse, holdingsleep. cbn [fst snd]. rewrite Hl. cbn [locked pid].
        rewrite Z.eqb_refl. cbn [andb negb]. eauto. }
      destruct Hrel as [bc1 Hrel]. exists bc1. split; [exact Hrel|].
      intros p t. rewrite <- Hk8 in Hrel |- *.
      destruct (bget_after_brelse bc (rq_pid (f j)) j bc1 p d8 b8 t Hj) as (bc2 & Hget & _);
        try assumption.
      * rewrite Hk8. intros j' Hj' _. destruct (Hheld j' Hj') as (_ & -> & _). discriminate.
      * now rewrite Hk8.
      * rewrite Hk8, Hlu. exact Ht.
      * eauto.
Qed.

Lemma scenario_A_witness :
  hash 91 = 0 /\
  exists bc,
    acquire_all (binit bss) (map (fun j => (1, 1, 13 * j, 5)) (zseq 0 (Z.to_nat BUFFERSIZE)))
    = Ok bc tt /\
    bget bc 1 1 91 6 = Panic "do not have enough free buffer" /\
    exists bc1, brelse bc 1 (0, 3) = Ok bc1 tt /\
                exists bc2, bget bc1 2 1 91 6 = Ok bc2 (0, 3).
Proof.
  assert (Hk8 : hash 91 = 0) by reflexivity.
  split; [exact Hk8|].
  destruct (scenario_A (fun j => (1, 1, 13 * j, 5)) 0 1 91) as (bc & Hall & Hfatal & Hretry).
  - intros j _. change (hash (13 * j) = 0). unfold hash, BUCKETSIZE.
    rewrite Z.mul_comm. apply Z.mod_mul. lia.
  - exact Hk8.
  - intros i j Hi Hj. change ((1, 13 * i) <> (1, 13 * j)). intros E.
    assert (E' : 13 * i = 13 * j) by exact (f_equal snd E). lia.
  - intros j Hj. change ((1, 13 * j) <> (1, 91)). unfold BUFFERSIZE in Hj. intros E.
    assert (E' : 13 * j = 91) by exact (f_equal snd E). lia.
  - exists bc. split; [exact Hall|]. split; [apply Hfatal|].
    destruct (Hretry 3) as (bc1 & Hrel & Hget).
    + unfold BUFFERSIZE. lia.
    + change (5 < UINT_MAX). unfold UINT_MAX. lia.
    + exists bc1. split; [exact Hrel|]. apply Hget.
Defined.

(** ** Initialisation *)




(** ** Release *)

(** C9: [brelse] panics unless the caller holds the sleep lock of the
    buffer; when it does, the call returns, the reference count is one
    less (as [uint]) and the lock is given up, while last-use, validity,
    device, block number and payload of the buffer and every other buffer
    of every bucket are as before. *)
Theorem brelse_frame bc p bp :
  (holdingsleep (lock (bc (fst bp) (snd bp))) p = false -> brelse bc p bp = Panic "brelse") /\
  (holdingsleep (lock (bc (fst bp) (snd bp))) p = true ->
   exists bc',
     brelse bc p bp = Ok bc' tt /\
     refcnt (bc' (fst bp) (snd bp)) = wrap32 (refcnt (bc (fst bp) (snd bp)) - 1) /\
     (0 < refcnt (bc (fst bp) (snd bp)) <= UINT_MAX ->
      refcnt (bc' (fst bp) (snd bp)) = refcnt (bc (fst bp) (snd bp)) - 1) /\
     lastuse (bc' (fst bp) (snd bp)) = lastuse (bc (fst bp) (snd bp)) /\
     valid (bc' (fst bp) (snd bp)) = valid (bc (fst bp) (snd bp)) /\
     dev (bc' (fst bp) (snd bp)) = dev (bc (fst bp) (snd bp)) /\
     blockno (bc' (fst bp) (snd bp)) = blockno (bc (fst bp) (snd bp)) /\
     data (bc' (fst bp) (snd bp)) = data (bc (fst bp) (snd bp)) /\
     locked (lock (bc' (fst bp) (snd bp))) = false /\
     (forall k i, (k, i) <> bp -> bc' k i = bc k i)).
Proof.
  unfold brelse. split; intros H; rewrite H; cbn [negb].
  - reflexivity.
  - eexists. split; [reflexivity|]. rewrite upd_same. cbn.
    repeat split.
    + intros Hr. unfold wrap32. apply Z.mod_small. unfold UINT_MAX in Hr. lia.
    + intros k i Hne. apply upd_other. destruct bp. exact Hne.
Qed.

Lemma brelse_frame_witness :
  holdingsleep (lock (full_cache 5 5 0 0)) 1 = true /\
  exists bc', brelse (full_cache 5 5) 1 (0, 0) = Ok bc' tt /\
              refcnt (bc' 0 0) = 0 /\ lastuse (bc' 0 0) = 5 /\
              bc' 0 1 = full_cache 5 5 0 1.
Proof.
  assert (H : holdingsleep (lock (full_cache 5 5 (fst (0, 0)) (snd (0, 0)))) 1 = true)
    by (vm_compute; reflexivity).
  split; [exact H|].
  destruct (proj2 (brelse_frame (full_cache 5 5) 1 (0, 0)) H)
    as (bc' & E & Hr & _ & Hl & _ & _ & _ & _ & _ & Hframe).
  cbn [fst snd] in Hr, Hl.
  exists bc'. split; [exact E|]. split; [|split].
  - rewrite Hr. vm_compute. reflexivity.
  - rewrite Hl. vm_compute. reflexivity.
  - apply Hframe. discriminate.
Defined.

(** ** Recency *)

(** C10: the recycling path of [bget] stores the current tick in the
    last-use of the slot, as the hit path does; so, if the clock has not
    run backwards (no slot of the bucket is stamped later than now), the
    slot just recycled is the most recently used of its bucket; and no
    eviction picks a slot while an unreferenced slot with a smaller
    last-use exists. *)
Theorem bget_miss_stamps bc p dv bn t bc' bp :
  no_match bc (hash bn) dv bn ->
  bget bc p dv bn t = Ok bc' bp ->
  lastuse (bc' (fst bp) (snd bp)) = t /\
  (forall bc0 p0 dv0 bn0 bc0' bp0,
     ~ no_match bc0 (hash bn0) dv0 bn0 -> bget bc0 p0 dv0 bn0 t = Ok bc0' bp0 ->
     lastuse (bc0' (fst bp0) (snd bp0)) = t) /\
  ((forall j, 0 <= j < BUFFERSIZE -> lastuse (bc (hash bn) j) <= t) ->
   forall j, 0 <= j < BUFFERSIZE ->
     lastuse (bc' (fst bp) j) <= lastuse (bc' (fst bp) (snd bp))) /\
  (forall bc2 p2 dv2 bn2 t2 bc3,
     no_match bc2 (hash bn2) dv2 bn2 ->
     bget bc2 p2 dv2 bn2 t2 = Ok bc3 bp ->
     forall j, 0 <= j < BUFFERSIZE -> refcnt (bc2 (fst bp) j) = 0 ->
       lastuse (bc2 (fst bp) (snd bp)) <= lastuse (bc2 (fst bp) j)).
Proof.
  intros Hno Hget.
  destruct (bget_ok _ _ _ _ _ _ _ Hget) as (bc0 & Hcs & Hlk).
  destruct (bget_locked_miss _ _ _ _ _ _ Hno Hcs) as (Hk & Hlru & _ & ->).
  destruct (lock_buf_ok _ _ _ _ _ Hlk) as (_ & _ & ->).
  rewrite Hk. rewrite !upd_same. cbn [lastuse set_lock recycled].
  split; [reflexivity|]. split; [|split].
  - intros bc1 p1 dv1 bn1 bc1' bp1 Hm Hget1.
    destruct (bget_ok _ _ _ _ _ _ _ Hget1) as (bc1a & Hcs1 & Hlk1).
    destruct (bget_locked_hit _ _ _ _ _ _ Hm Hcs1) as (Hk1 & _ & _ & _ & ->).
    destruct (lock_buf_ok _ _ _ _ _ Hlk1) as (_ & _ & ->).
    rewrite Hk1, !upd_same. reflexivity.
  - intros Hclock j Hj. destruct (Z.eq_dec j (snd bp)) as [->|Hne].
    + rewrite upd_same. cbn. lia.
    + rewrite !upd_other_slot by assumption. now apply Hclock.
  - intros bc2 p2 dv2 bn2 t2 bc3 Hno2 Hget2 j Hj Hrj.
    destruct (bget_ok _ _ _ _ _ _ _ Hget2) as (bc2a & Hcs2 & _).
    destruct (bget_locked_miss _ _ _ _ _ _ Hno2 Hcs2) as (Hk2 & Hlru2 & _).
    rewrite <- Hk2, Hk in Hlru2. destruct Hlru2 as (_ & _ & Hmin & _). now apply Hmin.
Qed.

Lemma bget_miss_stamps_witness :
  no_match (binit bss) (hash 13) 1 13 /\
  bget (binit bss) 1 1 13 5 = Ok (state_of (bget (binit bss) 1 1 13 5)) (0, 0) /\
  lastuse (state_of (bget (binit bss) 1 1 13 5) 0 0) = 5.
Proof.
  assert (Hno : no_match (binit bss) (hash 13) 1 13).
  { intros j Hj. rewrite binit_bss_ident. discriminate. }
  assert (Hget : bget (binit bss) 1 1 13 5 = Ok (state_of (bget (binit bss) 1 1 13 5)) (0, 0))
    by (vm_compute; reflexivity).
  split; [exact Hno|]. split; [exact Hget|].
  exact (proj1 (bget_miss_stamps _ _ _ _ _ _ _ Hno Hget)).
Defined.

(** ** Reading *)

Lemma find_cached_first bc k dv bn i :
  0 <= i < BUFFERSIZE -> ident (bc k i) = (dv, bn) ->
  (forall j, 0 <= j < i -> ident (bc k j) <> (dv, bn)) ->
  find_cached bc k dv bn (Z.to_nat BUFFERSIZE) 0 = Some i.
Proof.
  intros Hi Hid Hfirst. apply find_cached_some.
  change (0 + Z.of_nat (Z.to_nat BUFFERSIZE)) with BUFFERSIZE. auto.
Qed.

(** The buffer [bget] returns: it lies in the bucket of the block, is the
    first slot of the bucket with the identity asked for, and its lock is
    held by the caller. *)
Lemma bget_returns bc p dv bn t bc1 bp :
  bget bc p dv bn t = Ok bc1 bp ->
  fst bp = hash bn /\ 0 <= snd bp < BUFFERSIZE /\
  ident (bc1 (fst bp) (snd bp)) = (dv, bn) /\
  (forall j, 0 <= j < snd bp -> ident (bc1 (fst bp) j) <> (dv, bn)) /\
  lock (bc1 (fst bp) (snd bp)) = mkSleeplock true p.
Proof.
  intros Hget. destruct (bget_ok _ _ _ _ _ _ _ Hget) as (bc0 & Hcs & Hlk).
  destruct (lock_buf_ok _ _ _ _ _ Hlk) as (_ & _ & ->).
  destruct (no_match_dec bc (hash bn) dv bn) as [Hno|Hm].
  - destruct (bget_locked_miss _ _ _ _ _ _ Hno Hcs) as (Hk & Hlru & _ & ->).
    rewrite Hk, !upd_same. split; [reflexivity|]. split; [apply Hlru|].
    split; [reflexivity|]. split; [|reflexivity].
    intros j Hj. rewrite !upd_other_slot by lia. apply Hno. destruct Hlru; lia.
  - destruct (bget_locked_hit _ _ _ _ _ _ Hm Hcs) as (Hk & Hi & Hid & Hfirst & ->).
    rewrite Hk, !upd_same. split; [reflexivity|]. split; [assumption|].
    split; [exact Hid|]. split; [|reflexivity].
    intros j Hj. rewrite !upd_other_slot by lia. now apply Hfirst.
Qed.

(** The tail of [bread] leaves identities, locks and reference counts
    alone and the buffer valid; it transfers only into an invalid
    buffer. *)
Lemma bread_fill_spec w bp :
  (forall k i, ident (cache (bread_fill w bp) k i) = ident (cache w k i) /\
               lock (cache (bread_fill w bp) k i) = lock (cache w k i)) /\
  valid (cache (bread_fill w bp) (fst bp) (snd bp)) <> 0 /\
  disk (bread_fill w bp) = disk w /\
  (valid (cache w (fst bp) (snd bp)) = 0 ->
   transfers (bread_fill w bp) =
     transfers w ++ [(false, dev (cache w (fst bp) (snd bp)), blockno (cache w (fst bp) (snd bp)))] /\
   data (cache (bread_fill w bp) (fst bp) (snd bp)) =
     disk w (dev (cache w (fst bp) (snd bp))) (blockno (cache w (fst bp) (snd bp)))) /\
  (valid (cache w (fst bp) (snd bp)) <> 0 -> bread_fill w bp = w).
Proof.
  unfold bread_fill.
  destruct (Z.eqb_spec (valid (cache w (fst bp) (snd bp))) 0) as [E|E].
  - cbn [virtio_disk_rw with_cache cache disk transfers].
    split; [|split; [|split; [|split]]].
    + intros k i. unfold upd.
      destruct ((k =? fst bp) && (i =? snd bp)) eqn:Eq; [|now split].
      apply andb_true_iff in Eq. destruct Eq as [Ek Ei].
      apply Z.eqb_eq in Ek, Ei. subst. rewrite !Z.eqb_refl. cbn. now split.
    + rewrite !upd_same. cbn. discriminate.
    + reflexivity.
    + intros _. rewrite !upd_same. cbn. now split.
    + intros H. contradiction.
  - split; [|split; [|split; [|split]]]; auto. intros H. contradiction.
Qed.

(** C8: two consecutive reads of a block give the same payload.  The
    first read transfers from the device only into a buffer that is not
    valid, and leaves it valid; a second read of the block parks until the
    holder releases the buffer, and once it has, the second read returns
    the same buffer with the same payload, without any device transfer. *)
Theorem bread_twice w p dv bn t1 w1 bp :
  bread w p dv bn t1 = Ok w1 bp ->
  (exists bc1, bget (cache w) p dv bn t1 = Ok bc1 bp /\
     (valid (bc1 (fst bp) (snd bp)) = 0 ->
        transfers w1 = transfers w ++ [(false, dv, bn)] /\
        data (cache w1 (fst bp) (snd bp)) = disk w dv bn) /\
     (valid (bc1 (fst bp) (snd bp)) <> 0 ->
        transfers w1 = transfers w /\
        data (cache w1 (fst bp) (snd bp)) = data (bc1 (fst bp) (snd bp)))) /\
  valid (cache w1 (fst bp) (snd bp)) <> 0 /\
  (forall p' t2, exists w', bread w1 p' dv bn t2 = Parked w') /\
  exists bc2,
    brelse (cache w1) p bp = Ok bc2 tt /\
    forall p' t2, exists w3,
      bread (with_cache w1 bc2) p' dv bn t2 = Ok w3 bp /\
      data (cache w3 (fst bp) (snd bp)) = data (cache w1 (fst bp) (snd bp)) /\
      transfers w3 = transfers w1 /\ disk w3 = disk w1.
Proof.
  unfold bread at 1.
  destruct (bget (cache w) p dv bn t1) as [bc1 bp1| | |] eqn:Hget; try discriminate.
  intros [= <- ->].
  destruct (bget_returns _ _ _ _ _ _ _ Hget) as (Hk & Hi & Hid & Hfirst & Hlock).
  destruct bp as [k i]. cbn [fst snd] in *. subst k.
  set (w0 := with_cache w bc1).
  destruct (bread_fill_spec w0 (hash bn, i)) as (Hsame & Hvalid & Hdisk & Hload & Hkeep).
  cbn [fst snd] in *.
  set (w1 := bread_fill w0 (hash bn, i)) in *.
  assert (Hid1 : ident (cache w1 (hash bn) i) = (dv, bn))
    by (rewrite (proj1 (Hsame _ _)); exact Hid).
  assert (Hfirst1 : forall j, 0 <= j < i -> ident (cache w1 (hash bn) j) <> (dv, bn))
    by (intros j Hj; rewrite (proj1 (Hsame _ _)); now apply Hfirst).
  assert (Hlock1 : lock (cache w1 (hash bn) i) = mkSleeplock true p)
    by (rewrite (proj2 (Hsame _ _)); exact Hlock).
  split; [|split; [exact Hvalid|split]].
  - exists bc1. split; [reflexivity|]. split.
    + intros Hv. destruct (Hload Hv) as [Htr Hdata].
      change (cache w0) with bc1 in Htr, Hdata.
      injection Hid as Hd Hb. rewrite Hd, Hb in Htr, Hdata. now split.
    + intros Hv. rewrite (Hkeep Hv). now split.
  - (* before the release the lock is held: the second reader parks *)
    intros p' t2. unfold bread, bget, bget_locked.
    rewrite (find_cached_first _ _ _ _ i Hi Hid1 Hfirst1).
    unfold lock_buf, acquiresleep. cbn [fst snd]. upd_read.
    cbn [lock set_lastuse set_refcnt].
    rewrite Hlock1. cbn [locked]. eexists. reflexivity.
  - (* after it, the second read hits the same, valid buffer *)
    unfold brelse. cbn [fst snd]. rewrite Hlock1.
    unfold holdingsleep. cbn [locked pid]. rewrite Z.eqb_refl. cbn [andb negb].
    eexists. split; [reflexivity|].
    intros p' t2. unfold bread, bget, bget_locked. cbn [cache with_cache].
    rewrite (find_cached_first _ (hash bn) dv bn i Hi).
    + unfold lock_buf, acquiresleep. cbn [fst snd]. upd_read.
      cbn [lock set_lastuse set_refcnt set_lock releasesleep locked].
      unfold bread_fill. cbn [fst snd cache with_cache]. upd_read.
      cbn [valid set_lock set_lastuse set_refcnt].
      destruct (Z.eqb_spec (valid (cache w1 (hash bn) i)) 0) as [E|E]; [contradiction|].
      eexists. split; [reflexivity|]. cbn [cache with_cache]. upd_read. cbn. auto.
    + upd_read. exact Hid1.
    + intros j Hj. rewrite upd_other_slot by lia. now apply Hfirst1.
Qed.

Lemma bread_twice_witness :
  bread (init_world (fun _ _ => [])) 1 1 13 5
  = Ok (bread_fill (with_cache (init_world (fun _ _ => []))
                               (state_of (bget (binit bss) 1 1 13 5))) (0, 0)) (0, 0) /\
  exists w', bread (bread_fill (with_cache (init_world (fun _ _ => []))
                               (state_of (bget (binit bss) 1 1 13 5))) (0, 0)) 2 1 13 6
             = Parked w'.
Proof.
  assert (H : bread (init_world (fun _ _ => [])) 1 1 13 5
              = Ok (bread_fill (with_cache (init_world (fun _ _ => []))
                                  (state_of (bget (binit bss) 1 1 13 5))) (0, 0)) (0, 0))
    by (vm_compute; reflexivity).
  split; [exact H|].
  exact (proj1 (proj2 (proj2 (bread_twice _ _ _ _ _ _ _ H))) 2 6).
Defined.

(** ** Uniqueness of identities *)

Lemma same_idents_inv bc bc' : same_idents bc bc' -> ident_inv bc -> ident_inv bc'.
Proof.
  intros Hs [HA HB]. split.
  - intros k i Hin. pose proof (Hs k i) as E. unfold ident in E. injection E as Ed Eb.
    destruct (HA k i Hin) as [H|H].
    + left. now rewrite (Hs k i).
    + right. now rewrite Eb.
  - intros k i j Hi Hj Hne. rewrite !(Hs k _). now apply HB.
Qed.

Lemma same_idents_upd bc k i b :
  ident b = ident (bc k i) -> same_idents bc (upd bc k i b).
Proof.
  intros H k' i'. unfold upd.
  destruct (Z.eqb_spec k' k) as [->|]; destruct (Z.eqb_spec i' i) as [->|]; simpl; auto.
Qed.

Lemma hash_range bn : 0 <= hash bn < BUCKETSIZE.
Proof. unfold hash, BUCKETSIZE. apply Z.mod_pos_bound. lia. Qed.

Lemma bget_locked_ident_inv bc dv bn t bc' bp :
  bget_locked bc dv bn t = Ok bc' bp -> ident_inv bc -> ident_inv bc'.
Proof.
  intros Hcs Hinv. destruct (no_match_dec bc (hash bn) dv bn) as [Hno|Hm].
  - destruct (bget_locked_miss _ _ _ _ _ _ Hno Hcs) as (_ & Hlru & _ & ->).
    destruct Hinv as [HA HB]. set (i0 := snd bp) in *.
    assert (Hi0 : 0 <= i0 < BUFFERSIZE) by apply Hlru.
    split.
    + intros k i Hin. destruct (Z.eq_dec k (hash bn)) as [->|Hk].
      * destruct (Z.eq_dec i i0) as [->|Hi].
        -- rewrite upd_same. now right.
        -- rewrite upd_other_slot by assumption. now apply HA.
      * rewrite upd_other_bucket by assumption. now apply HA.
    + intros k i j Hi Hj Hne. destruct (Z.eq_dec k (hash bn)) as [->|Hk].
      * destruct (Z.eq_dec i i0) as [->|Hii]; destruct (Z.eq_dec j i0) as [->|Hji];
          try contradiction.
        -- rewrite upd_same, upd_other_slot by assumption. cbn. intros E.
           exfalso. apply (Hno j); [apply Hj | now symmetry].
        -- rewrite upd_same, upd_other_slot by assumption. cbn. intros E.
           exfalso. apply (Hno i); [apply Hi | assumption].
        -- rewrite !upd_other_slot by assumption. now apply HB.
      * rewrite !upd_other_bucket by assumption. now apply HB.
  - destruct (bget_locked_hit _ _ _ _ _ _ Hm Hcs) as (_ & _ & _ & _ & ->).
    revert Hinv. apply same_idents_inv, same_idents_upd. reflexivity.
Qed.

Lemma lock_buf_ident_inv bc p bp bc' bp' :
  lock_buf bc p bp = Ok bc' bp' -> ident_inv bc -> ident_inv bc'.
Proof.
  intros H. destruct (lock_buf_ok _ _ _ _ _ H) as (_ & _ & ->).
  apply same_idents_inv, same_idents_upd. reflexivity.
Qed.

Lemma bget_ident_inv bc p dv bn t bc' bp :
  bget bc p dv bn t = Ok bc' bp -> ident_inv bc -> ident_inv bc'.
Proof.
  intros H Hinv. destruct (bget_ok _ _ _ _ _ _ _ H) as (bc0 & Hcs & Hlk).
  eapply lock_buf_ident_inv; [exact Hlk|]. eapply bget_locked_ident_inv; eassumption.
Qed.

Lemma bget_parked_ident_inv bc p dv bn t bc' :
  bget bc p dv bn t = Parked bc' -> ident_inv bc -> ident_inv bc'.
Proof.
  unfold bget. destruct (bget_locked bc dv bn t) as [bc0 bp| |bc0|] eqn:Hcs; try discriminate.
  - unfold lock_buf. destruct (acquiresleep _ _); [discriminate|].
    intros [= <-] Hinv. eapply bget_locked_ident_inv; eassumption.
  - exfalso. unfold bget_locked in Hcs.
    destruct (find_cached _ _ _ _ _ _); [discriminate|].
    destruct (_ =? _); discriminate.
Qed.

Lemma bread_fill_ident_inv w bp : ident_inv (cache w) -> ident_inv (cache (bread_fill w bp)).
Proof.
  apply same_idents_inv. intros k i.
  apply (proj1 (bread_fill_spec w bp)).
Qed.

Lemma step_ident_inv w w' : step w w' -> ident_inv (cache w) -> ident_inv (cache w').
Proof.
  intros Hstep Hinv. destruct Hstep; cbn [cache with_cache].
  - eapply bget_ident_inv; eassumption.
  - eapply bget_parked_ident_inv; eassumption.
  - eapply lock_buf_ident_inv; eassumption.
  - unfold bread in H.
    destruct (bget (cache w) p dv bn t) as [bc1 bp1| | |] eqn:Hget; try discriminate.
    injection H as <- <-. apply bread_fill_ident_inv. cbn [cache with_cache].
    eapply bget_ident_inv; eassumption.
  - now apply bread_fill_ident_inv.
  - unfold bwrite in H. destruct (negb _); [discriminate|].
    injection H as <-. unfold virtio_disk_rw. cbn [cache]. exact Hinv.
  - unfold brelse in H. destruct (negb _); [discriminate|]. injection H as <-.
    revert Hinv. apply same_idents_inv, same_idents_upd. reflexivity.
  - revert Hinv. apply same_idents_inv, same_idents_upd. reflexivity.
  - revert Hinv. apply same_idents_inv, same_idents_upd. reflexivity.
Qed.

Lemma reachable_ident_inv w : reachable w -> ident_inv (cache w).
Proof.
  induction 1 as [dsk | w w' _ IH Hstep].
  - cbn [cache init_world]. split.
    + intros k i _. left. apply binit_bss_ident.
    + intros k i j _ _ _ _. apply binit_bss_ident.
  - eapply step_ident_inv; eassumption.
Qed.

(** C7 as stated fails in the state [binit] leaves: all 91 slots carry the
    identity (0, 0) of the zeroed array. *)
Lemma unique_ident_fails :
  ~ (forall w, reachable w -> unique_ident (cache w)).
Proof.
  intros H.
  specialize (H (init_world (fun _ _ => [])) (reach_init _) 0 0 0 1).
  assert (E : (0, 0) = (0, 1)); [|discriminate E].
  apply H.
  - unfold in_cache, BUCKETSIZE, BUFFERSIZE. lia.
  - unfold in_cache, BUCKETSIZE, BUFFERSIZE. lia.
  - cbn [cache init_world]. now rewrite !binit_bss_ident.
Qed.

(** C7, amended: in every state reachable from the initialised cache by
    acquire, read, write, release, pin and unpin, every identity other
    than the (0, 0) of never-recycled slots is carried by at most one slot
    of the whole cache, and that slot lies in the bucket its block number
    selects. *)
Theorem unique_nonzero_ident_reachable w :
  reachable w -> unique_nonzero_ident (cache w).
Proof.
  intros R. destruct (reachable_ident_inv w R) as [HA HB].
  intros k i k' i' Hin Hin' E Hnz.
  assert (Hk : hash (blockno (cache w k i)) = k).
  { destruct (HA k i Hin) as [H|H]; [contradiction | exact H]. }
  assert (Hk' : hash (blockno (cache w k' i')) = k').
  { destruct (HA k' i' Hin') as [H|H]; [rewrite <- E in H; contradiction | exact H]. }
  assert (Ekk : k = k').
  { rewrite <- Hk, <- Hk'. unfold ident in E. injection E as _ Eb. now rewrite Eb. }
  subst k'. split; [|now symmetry].
  destruct (Z.eq_dec i i') as [->|Hne]; [reflexivity|].
  exfalso. apply Hnz. now apply (HB k i i').
Qed.

Lemma unique_nonzero_ident_reachable_witness :
  reachable (mkWorld (one_free_cache UINT_MAX 5) (fun _ _ => []) []) /\
  unique_nonzero_ident (cache (mkWorld (one_free_cache UINT_MAX 5) (fun _ _ => []) [])).
Proof.
  split.
  - apply one_free_cache_reachable.
  - apply unique_nonzero_ident_reachable. apply one_free_cache_reachable.
Defined.

(* ------------------------------------------------------------------ *)
(** ** More on bget: the hit path, the fatal case, what is left alone *)

Lemma bget_locked_hit_eq bc dv bn t i :
  0 <= i < BUFFERSIZE -> ident (bc (hash bn) i) = (dv, bn) ->
  (forall j, 0 <= j < i -> ident (bc (hash bn) j) <> (dv, bn)) ->
  bget_locked bc dv bn t =
  Ok (upd bc (hash bn) i
          (set_lastuse (set_refcnt (bc (hash bn) i)
                                   (wrap32 (refcnt (bc (hash bn) i) + 1))) t))
     (hash bn, i).
Proof.
  intros Hi Hid Hfirst. unfold bget_locked.
  now rewrite (find_cached_first _ _ _ _ i Hi Hid Hfirst).
Qed.

(** The two ways the critical section of [bget] returns. *)
Lemma bget_locked_cases bc dv bn t bc0 bp :
  bget_locked bc dv bn t = Ok bc0 bp ->
  fst bp = hash bn /\ 0 <= snd bp < BUFFERSIZE /\
  (forall k j, (k, j) <> bp -> bc0 k j = bc k j) /\
  ((ident (bc (fst bp) (snd bp)) = (dv, bn) /\
    bc0 (fst bp) (snd bp) =
      set_lastuse (set_refcnt (bc (fst bp) (snd bp))
                              (wrap32 (refcnt (bc (fst bp) (snd bp)) + 1))) t)
   \/
   (no_match bc (hash bn) dv bn /\ refcnt (bc (fst bp) (snd bp)) = 0 /\
    lastuse (bc (fst bp) (snd bp)) < UINT_MAX /\
    bc0 (fst bp) (snd bp) = recycled (bc (fst bp) (snd bp)) dv bn t)).
Proof.
  intros Hcs. destruct bp as [k i]. cbn [fst snd].
  destruct (no_match_dec bc (hash bn) dv bn) as [Hno|Hm].
  - destruct (bget_locked_miss _ _ _ _ _ _ Hno Hcs) as (Hk & Hlru & Hlt & ->).
    cbn [fst snd] in *. subst k. split; [reflexivity|]. split; [apply Hlru|].
    split; [intros k j Hne; now apply upd_other|].
    right. rewrite upd_same. split; [assumption|]. split; [apply Hlru|]. now split.
  - destruct (bget_locked_hit _ _ _ _ _ _ Hm Hcs) as (Hk & Hi & Hid & _ & ->).
    cbn [fst snd] in *. subst k. split; [reflexivity|]. split; [assumption|].
    split; [intros k j Hne; now apply upd_other|].
    left. rewrite upd_same. now split.
Qed.

Lemma bget_locked_outcome bc dv bn t :
  (exists bc0 bp, bget_locked bc dv bn t = Ok bc0 bp) \/
  bget_locked bc dv bn t = Panic "do not have enough free buffer".
Proof.
  unfold bget_locked. destruct (find_cached _ _ _ _ _ _); [left; eauto|].
  destruct (_ =? _); [now right | left; eauto].
Qed.

Lemma bget_parked bc p dv bn t bc' :
  bget bc p dv bn t = Parked bc' ->
  exists bp, bget_locked bc dv bn t = Ok bc' bp /\
             locked (lock (bc' (fst bp) (snd bp))) = true.
Proof.
  unfold bget.
  destruct (bget_locked_outcome bc dv bn t) as [(bc0 & bp & E) | E]; rewrite E; [|discriminate].
  unfold lock_buf, acquiresleep.
  destruct (locked (lock (bc0 (fst bp) (snd bp)))) eqn:El; [|discriminate].
  intros [= <-]. eauto.
Qed.

(** A slot that does not carry the block asked for and is referenced is
    neither the slot [bget] returns nor changed by it. *)
Lemma bget_other_ident bc q dv bn t bc2 bp2 k i :
  bget bc q dv bn t = Ok bc2 bp2 ->
  ident (bc k i) <> (dv, bn) -> refcnt (bc k i) <> 0 ->
  (k, i) <> bp2 /\ bc2 k i = bc k i.
Proof.
  intros Hget Hid Hr.
  destruct (bget_ok _ _ _ _ _ _ _ Hget) as (bc0 & Hcs & Hlk).
  destruct (lock_buf_ok _ _ _ _ _ Hlk) as (_ & _ & ->).
  destruct (bget_locked_cases _ _ _ _ _ _ Hcs) as (_ & _ & Hframe & Hcase).
  assert (Hne : (k, i) <> bp2).
  { intros <-. cbn [fst snd] in Hcase.
    destruct Hcase as [(H & _) | (_ & H & _)]; contradiction. }
  split; [assumption|]. destruct bp2 as [k2 i2]. cbn [fst snd].
  rewrite upd_other by assumption. now apply Hframe.
Qed.

(** X1: when a slot of the bucket carries the block asked for, [bget]
    never panics, whatever the reference counts: it takes the first such
    slot, adds one to its reference count (as [uint]), stamps it with the
    tick and leaves its identity, validity, payload and every other slot
    alone; it parks when the sleep lock of the buffer is held (the
    reference is counted already) and returns the buffer locked by the
    caller when it is free. *)
Theorem bget_hit bc p dv bn t i :
  0 <= i < BUFFERSIZE -> ident (bc (hash bn) i) = (dv, bn) ->
  (forall j, 0 <= j < i -> ident (bc (hash bn) j) <> (dv, bn)) ->
  exists bc0,
    bget_locked bc dv bn t = Ok bc0 (hash bn, i) /\
    refcnt (bc0 (hash bn) i) = wrap32 (refcnt (bc (hash bn) i) + 1) /\
    lastuse (bc0 (hash bn) i) = t /\
    ident (bc0 (hash bn) i) = (dv, bn) /\
    valid (bc0 (hash bn) i) = valid (bc (hash bn) i) /\
    data (bc0 (hash bn) i) = data (bc (hash bn) i) /\
    (forall k j, (k, j) <> (hash bn, i) -> bc0 k j = bc k j) /\
    (locked (lock (bc (hash bn) i)) = true -> bget bc p dv bn t = Parked bc0) /\
    (locked (lock (bc (hash bn) i)) = false ->
     exists bc1, bget bc p dv bn t = Ok bc1 (hash bn, i) /\
       lock (bc1 (hash bn) i) = mkSleeplock true p /\
       refcnt (bc1 (hash bn) i) = wrap32 (refcnt (bc (hash bn) i) + 1) /\
       valid (bc1 (hash bn) i) = valid (bc (hash bn) i) /\
       data (bc1 (hash bn) i) = data (bc (hash bn) i) /\
       (forall k j, (k, j) <> (hash bn, i) -> bc1 k j = bc k j)).
Proof.
  intros Hi Hid Hfirst.
  pose proof (bget_locked_hit_eq bc dv bn t i Hi Hid Hfirst) as Hcs.
  eexists. split; [exact Hcs|]. rewrite upd_same. cbn [refcnt lastuse valid data set_lastuse set_refcnt].
  split; [reflexivity|]. split; [reflexivity|]. split; [exact Hid|].
  split; [reflexivity|]. split; [reflexivity|].
  split; [intros k j Hne; now apply upd_other|].
  unfold bget. rewrite Hcs. unfold lock_buf, acquiresleep. cbn [fst snd].
  rewrite upd_same. cbn [lock set_lastuse set_refcnt]. split; intros Hl; rewrite Hl.
  - reflexivity.
  - eexists. split; [reflexivity|]. rewrite upd_same. cbn.
    repeat split. intros k j Hne. now rewrite !upd_other by assumption.
Qed.

Lemma bget_hit_witness :
  0 <= 1 < BUFFERSIZE /\ ident (full_cache 5 5 (hash 13) 1) = (1, 13) /\
  exists bc0, bget (full_cache 5 5) 2 1 13 9 = Parked bc0 /\ refcnt (bc0 0 1) = 2.
Proof.
  assert (Hi : 0 <= 1 < BUFFERSIZE) by (unfold BUFFERSIZE; lia).
  assert (Hid : ident (full_cache 5 5 (hash 13) 1) = (1, 13)) by (vm_compute; reflexivity).
  assert (Hfirst : forall j, 0 <= j < 1 -> ident (full_cache 5 5 (hash 13) j) <> (1, 13)).
  { intros j Hj. assert (j = 0) as -> by lia. vm_compute. discriminate. }
  split; [exact Hi|]. split; [exact Hid|].
  destruct (bget_hit (full_cache 5 5) 2 1 13 9 1 Hi Hid Hfirst)
    as (bc0 & _ & Hr & _ & _ & _ & _ & _ & Hpark & _).
  exists bc0. split.
  - apply Hpark. vm_compute. reflexivity.
  - change (hash 13) with 0 in Hr. rewrite Hr. vm_compute. reflexivity.
Defined.

(** X2: [bget] is fatal exactly when no slot of the bucket matches and
    no slot of the bucket has reference count 0 together with a last-use
    below 0xffffffff; the message is always the same, and the other
    buckets have no say in it. *)
Theorem bget_fatal_iff bc p dv bn t m :
  bget bc p dv bn t = Panic m <->
  (m = "do not have enough free buffer"%string /\
   no_match bc (hash bn) dv bn /\
   forall j, 0 <= j < BUFFERSIZE ->
     ~ (refcnt (bc (hash bn) j) = 0 /\ lastuse (bc (hash bn) j) < UINT_MAX)).
Proof.
  split.
  - intros Hp.
    assert (Hcs : bget_locked bc dv bn t = Panic m).
    { unfold bget in Hp. destruct (bget_locked bc dv bn t) as [bc0 bp| | |]; try discriminate.
      - unfold lock_buf in Hp. destruct (acquiresleep _ _); discriminate.
      - exact Hp. }
    destruct (no_match_dec bc (hash bn) dv bn) as [Hno|Hm].
    + destruct (find_lru_spec bc (hash bn)) as [[_ Hnone] | [Hlru Hlt]].
      * rewrite (bget_locked_exhausted bc dv bn t Hno Hnone) in Hcs.
        injection Hcs as <-. auto.
      * rewrite (bget_locked_recycles bc dv bn t _ Hno Hlru Hlt) in Hcs. discriminate.
    + exfalso. unfold bget_locked in Hcs.
      destruct (find_cached bc (hash bn) dv bn (Z.to_nat BUFFERSIZE) 0) eqn:E; [discriminate|].
      apply Hm. now apply no_match_find.
  - intros (-> & Hno & Hnone). unfold bget.
    now rewrite (bget_locked_exhausted bc dv bn t Hno Hnone).
Qed.

Lemma bget_fatal_iff_witness :
  bget (full_cache 5 5) 1 1 91 6 = Panic "do not have enough free buffer" /\
  no_match (full_cache 5 5) (hash 91) 1 91 /\
  ~ (refcnt (full_cache 5 5 (hash 91) 0) = 0 /\ lastuse (full_cache 5 5 (hash 91) 0) < UINT_MAX).
Proof.
  assert (H : bget (full_cache 5 5) 1 1 91 6 = Panic "do not have enough free buffer")
    by (vm_compute; reflexivity).
  split; [exact H|].
  destruct (proj1 (bget_fatal_iff (full_cache 5 5) 1 1 91 6 _) H) as (_ & Hno & Hbusy).
  split; [exact Hno|]. apply Hbusy. unfold BUFFERSIZE. lia.
Defined.

(** X3: whatever [bget] does, it changes one slot at most, and that slot
    lies in the bucket the block number selects; a buffer whose reference
    count is not 0 keeps its device, block number, validity and payload:
    a buffer in use is never recycled. *)
Theorem bget_spares_held bc p dv bn t bc' :
  (exists bp, bget bc p dv bn t = Ok bc' bp) \/ bget bc p dv bn t = Parked bc' ->
  (exists i, 0 <= i < BUFFERSIZE /\
             forall k j, (k, j) <> (hash bn, i) -> bc' k j = bc k j) /\
  (forall k j, refcnt (bc k j) <> 0 ->
     ident (bc' k j) = ident (bc k j) /\ valid (bc' k j) = valid (bc k j) /\
     data (bc' k j) = data (bc k j)).
Proof.
  intros H.
  assert (Hmid : exists bc0 bp,
             bget_locked bc dv bn t = Ok bc0 bp /\
             (forall k j, (k, j) <> bp -> bc' k j = bc0 k j) /\
             ident (bc' (fst bp) (snd bp)) = ident (bc0 (fst bp) (snd bp)) /\
             valid (bc' (fst bp) (snd bp)) = valid (bc0 (fst bp) (snd bp)) /\
             data (bc' (fst bp) (snd bp)) = data (bc0 (fst bp) (snd bp))).
  { destruct H as [[bp Hget] | Hpark].
    - destruct (bget_ok _ _ _ _ _ _ _ Hget) as (bc0 & Hcs & Hlk).
      destruct (lock_buf_ok _ _ _ _ _ Hlk) as (_ & _ & ->).
      exists bc0, bp. split; [assumption|]. rewrite upd_same. cbn.
      split; [|auto]. intros k j Hne. destruct bp. now apply upd_other.
    - destruct (bget_parked _ _ _ _ _ _ Hpark) as (bp & Hcs & _).
      exists bc', bp. auto. }
  destruct Hmid as (bc0 & bp & Hcs & Hout & Hid & Hv & Hd).
  destruct (bget_locked_cases _ _ _ _ _ _ Hcs) as (Hk & Hi & Hframe & Hcase).
  destruct bp as [k0 i0]. cbn [fst snd] in *. subst k0.
  split.
  - exists i0. split; [assumption|]. intros k j Hne.
    rewrite Hout by assumption. now apply Hframe.
  - intros k j Hr. destruct (Z.eq_dec k (hash bn)) as [->|Hk];
      [destruct (Z.eq_dec j i0) as [->|Hj]|].
    + rewrite Hid, Hv, Hd.
      destruct Hcase as [(_ & ->) | (_ & H0 & _)]; [cbn; auto | contradiction].
    + rewrite Hout, Hframe by congruence. auto.
    + rewrite Hout, Hframe by congruence. auto.
Qed.

Lemma bget_spares_held_witness :
  bget (full_cache 5 5) 1 1 13 9 = Parked (state_of (bget (full_cache 5 5) 1 1 13 9)) /\
  ident (state_of (bget (full_cache 5 5) 1 1 13 9) 0 0) = ident (full_cache 5 5 0 0).
Proof.
  assert (Hp : bget (full_cache 5 5) 1 1 13 9
               = Parked (state_of (bget (full_cache 5 5) 1 1 13 9)))
    by (vm_compute; reflexivity).
  split; [exact Hp|].
  refine (proj1 (proj2 (bget_spares_held _ _ _ _ _ _ (or_intror Hp)) 0 0 _)).
  vm_compute. discriminate.
Defined.

(* ------------------------------------------------------------------ *)
(** ** Acquire and release, pin and unpin *)

Lemma wrap32_inc_dec r : 0 <= r <= UINT_MAX -> wrap32 (wrap32 (r + 1) - 1) = r.
Proof.
  unfold wrap32, UINT_MAX. intros Hr. rewrite Zminus_mod_idemp_l.
  replace (r + 1 - 1) with r by lia. apply Z.mod_small. lia.
Qed.

Lemma wrap32_dec_inc r : 0 <= r <= UINT_MAX -> wrap32 (wrap32 (r - 1) + 1) = r.
Proof.
  unfold wrap32, UINT_MAX. intros Hr. rewrite Zplus_mod_idemp_l.
  replace (r - 1 + 1) with r by lia. apply Z.mod_small. lia.
Qed.

Lemma set_refcnt_back b x : set_refcnt (set_refcnt b x) (refcnt b) = b.
Proof. now destruct b. Qed.

Lemma upd_twice bc k i b1 b2 k' i' : upd (upd bc k i b1) k i b2 k' i' = upd bc k i b2 k' i'.
Proof.
  unfold upd. destruct ((k' =? k) && (i' =? i)); reflexivity.
Qed.

Lemma upd_back bc k i b k' i' : b = bc k i -> upd bc k i b k' i' = bc k' i'.
Proof.
  intros ->. unfold upd.
  destruct (Z.eqb_spec k' k) as [->|]; destruct (Z.eqb_spec i' i) as [->|]; reflexivity.
Qed.

(** X4: a buffer [bget] returned can always be released by its caller;
    after acquire and release the buffer is unlocked, carries the block
    asked for and the tick of the acquisition, and no other slot has
    changed; on a hit the reference count, validity and payload are back
    to what they were, on a miss the slot is left unreferenced and not
    valid. *)
Theorem bget_brelse_restores bc p dv bn t bc1 bp :
  bget bc p dv bn t = Ok bc1 bp ->
  exists bc2,
    brelse bc1 p bp = Ok bc2 tt /\
    locked (lock (bc2 (fst bp) (snd bp))) = false /\
    ident (bc2 (fst bp) (snd bp)) = (dv, bn) /\
    lastuse (bc2 (fst bp) (snd bp)) = t /\
    (forall k j, (k, j) <> bp -> bc2 k j = bc k j) /\
    (ident (bc (fst bp) (snd bp)) = (dv, bn) ->
     0 <= refcnt (bc (fst bp) (snd bp)) <= UINT_MAX ->
     refcnt (bc2 (fst bp) (snd bp)) = refcnt (bc (fst bp) (snd bp)) /\
     valid (bc2 (fst bp) (snd bp)) = valid (bc (fst bp) (snd bp)) /\
     data (bc2 (fst bp) (snd bp)) = data (bc (fst bp) (snd bp))) /\
    (no_match bc (hash bn) dv bn ->
     refcnt (bc2 (fst bp) (snd bp)) = 0 /\ valid (bc2 (fst bp) (snd bp)) = 0).
Proof.
  intros Hget.
  destruct (bget_ok _ _ _ _ _ _ _ Hget) as (bc0 & Hcs & Hlk).
  destruct (lock_buf_ok _ _ _ _ _ Hlk) as (_ & _ & ->).
  destruct (bget_locked_cases _ _ _ _ _ _ Hcs) as (Hk & Hi & Hframe & Hcase).
  destruct bp as [k i]. cbn [fst snd] in *. subst k.
  unfold brelse, holdingsleep. cbn [fst snd]. rewrite upd_same.
  cbn [lock set_lock locked pid]. rewrite Z.eqb_refl. cbn [andb negb].
  eexists. split; [reflexivity|]. rewrite upd_same.
  cbn [lock set_lock set_refcnt releasesleep locked ident dev blockno lastuse refcnt valid data].
  split; [reflexivity|].
  assert (Hid0 : (dev (bc0 (hash bn) i), blockno (bc0 (hash bn) i)) = (dv, bn) /\
                 lastuse (bc0 (hash bn) i) = t).
  { destruct Hcase as [(Hid & ->) | (_ & _ & _ & ->)]; cbn; auto. }
  split; [apply Hid0|]. split; [apply Hid0|].
  split.
  - intros k j Hne. rewrite !upd_other by assumption. now apply Hframe.
  - split.
    + intros Hid Hr. destruct Hcase as [(_ & ->) | (Hno & _)].
      * cbn. split; [now apply wrap32_inc_dec | auto].
      * exfalso. now apply (Hno i Hi).
    + intros Hno. destruct Hcase as [(Hid & _) | (_ & _ & _ & ->)].
      * exfalso. now apply (Hno i Hi).
      * cbn. auto.
Qed.

Lemma bget_brelse_restores_witness :
  bget (binit bss) 1 0 0 5 = Ok (state_of (bget (binit bss) 1 0 0 5)) (0, 0) /\
  exists bc2, brelse (state_of (bget (binit bss) 1 0 0 5)) 1 (0, 0) = Ok bc2 tt /\
              refcnt (bc2 0 0) = 0 /\ lastuse (bc2 0 0) = 5.
Proof.
  assert (Hget : bget (binit bss) 1 0 0 5 = Ok (state_of (bget (binit bss) 1 0 0 5)) (0, 0))
    by (vm_compute; reflexivity).
  split; [exact Hget|].
  destruct (bget_brelse_restores _ _ _ _ _ _ _ Hget) as (bc2 & Hrel & _ & _ & Hl & _ & Hhit & _).
  exists bc2. split; [exact Hrel|]. cbn [fst snd] in *. split; [|exact Hl].
  destruct Hhit as (Hr & _).
  - vm_compute. reflexivity.
  - vm_compute. split; discriminate.
  - rewrite Hr. vm_compute. reflexivity.
Defined.

(** X5: [bpin] and [bunpin] touch nothing but the reference count of
    their buffer, and undo each other in either order for every [uint]
    value of the count. *)
Theorem bpin_bunpin bc bp :
  0 <= refcnt (bc (fst bp) (snd bp)) <= UINT_MAX ->
  (forall k i, bunpin (bpin bc bp) bp k i = bc k i) /\
  (forall k i, bpin (bunpin bc bp) bp k i = bc k i) /\
  (forall k i, (k, i) <> bp -> bpin bc bp k i = bc k i /\ bunpin bc bp k i = bc k i) /\
  set_refcnt (bpin bc bp (fst bp) (snd bp)) 0 = set_refcnt (bc (fst bp) (snd bp)) 0 /\
  set_refcnt (bunpin bc bp (fst bp) (snd bp)) 0 = set_refcnt (bc (fst bp) (snd bp)) 0.
Proof.
  intros Hr. destruct bp as [k0 i0]. cbn [fst snd] in *.
  unfold bpin, bunpin. cbn [fst snd]. rewrite !upd_same.
  cbn [refcnt set_refcnt].
  split; [|split; [|split; [|split]]].
  - intros k i. rewrite upd_twice. apply upd_back.
    rewrite wrap32_inc_dec by assumption. now destruct (bc k0 i0).
  - intros k i. rewrite upd_twice. apply upd_back.
    rewrite wrap32_dec_inc by assumption. now destruct (bc k0 i0).
  - intros k i Hne. now rewrite !upd_other by assumption.
  - reflexivity.
  - reflexivity.
Qed.

Lemma bpin_bunpin_witness :
  0 <= refcnt (full_cache 5 5 0 2) <= UINT_MAX /\
  bunpin (bpin (full_cache 5 5) (0, 2)) (0, 2) 0 2 = full_cache 5 5 0 2.
Proof.
  assert (H : 0 <= refcnt (full_cache 5 5 (fst (0, 2)) (snd (0, 2))) <= UINT_MAX)
    by (vm_compute; split; discriminate).
  split; [exact H|].
  exact (proj1 (bpin_bunpin (full_cache 5 5) (0, 2) H) 0 2).
Defined.

(** X6: a pin outlives the release.  When the holder of a referenced
    buffer pins it and then releases it, the release returns, the
    reference count is what it was before the pin (so not 0), and no
    later [bget] for another block returns that slot or changes it. *)
Theorem pinned_survives bc p bp :
  holdingsleep (lock (bc (fst bp) (snd bp))) p = true ->
  1 <= refcnt (bc (fst bp) (snd bp)) < UINT_MAX ->
  exists bc1,
    brelse (bpin bc bp) p bp = Ok bc1 tt /\
    refcnt (bc1 (fst bp) (snd bp)) = refcnt (bc (fst bp) (snd bp)) /\
    ident (bc1 (fst bp) (snd bp)) = ident (bc (fst bp) (snd bp)) /\
    forall q dv bn t bc2 bp2,
      bget bc1 q dv bn t = Ok bc2 bp2 ->
      ident (bc (fst bp) (snd bp)) <> (dv, bn) ->
      bp2 <> bp /\ bc2 (fst bp) (snd bp) = bc1 (fst bp) (snd bp).
Proof.
  intros Hhold Hr. destruct bp as [k i]. cbn [fst snd] in *.
  unfold brelse, bpin. cbn [fst snd]. rewrite upd_same. cbn [lock set_refcnt].
  rewrite Hhold. cbn [negb].
  eexists. split; [reflexivity|]. rewrite upd_same.
  cbn [refcnt set_lock set_refcnt ident dev blockno].
  assert (Hback : wrap32 (wrap32 (refcnt (bc k i) + 1) - 1) = refcnt (bc k i))
    by (apply wrap32_inc_dec; lia).
  split; [exact Hback|]. split; [reflexivity|].
  intros q dv bn t bc2 bp2 Hget Hid.
  destruct (bget_other_ident _ _ _ _ _ _ _ k i Hget) as [Hne Hsame].
  - rewrite upd_same. exact Hid.
  - rewrite upd_same. cbn [refcnt set_lock set_refcnt]. rewrite Hback. lia.
  - split; [congruence | rewrite Hsame; now rewrite upd_same].
Qed.

Lemma pinned_survives_witness :
  holdingsleep (lock (full_cache 5 5 0 0)) 1 = true /\
  1 <= refcnt (full_cache 5 5 0 0) < UINT_MAX /\
  exists bc1, brelse (bpin (full_cache 5 5) (0, 0)) 1 (0, 0) = Ok bc1 tt /\
              refcnt (bc1 0 0) = 1.
Proof.
  assert (Hh : holdingsleep (lock (full_cache 5 5 (fst (0, 0)) (snd (0, 0)))) 1 = true)
    by (vm_compute; reflexivity).
  assert (Hr : 1 <= refcnt (full_cache 5 5 (fst (0, 0)) (snd (0, 0))) < UINT_MAX)
    by (vm_compute; split; [discriminate | reflexivity]).
  split; [exact Hh|]. split; [exact Hr|].
  destruct (pinned_survives (full_cache 5 5) 1 (0, 0) Hh Hr) as (bc1 & Hrel & Hc & _).
  exists bc1. split; [exact Hrel|]. cbn [fst snd] in Hc. rewrite Hc. vm_compute. reflexivity.
Defined.

(* ------------------------------------------------------------------ *)
(** ** bwrite, binit, bread *)

(** X7: [bwrite] panics unless the caller holds the sleep lock of the
    buffer.  When it does, the call returns and writes through: the disk
    block of the buffer's device and block number now holds its payload,
    no other disk block and no buffer has changed, one write transfer was
    issued, and loading that block into any buffer that is not valid gives
    the payload back. *)
Theorem bwrite_through w p bp :
  (holdingsleep (lock (cache w (fst bp) (snd bp))) p = false ->
   bwrite w p bp = Panic "bwrite") /\
  (holdingsleep (lock (cache w (fst bp) (snd bp))) p = true ->
   exists w',
     bwrite w p bp = Ok w' tt /\
     (forall k i, cache w' k i = cache w k i) /\
     disk w' (dev (cache w (fst bp) (snd bp))) (blockno (cache w (fst bp) (snd bp)))
       = data (cache w (fst bp) (snd bp)) /\
     (forall d n, (d, n) <> ident (cache w (fst bp) (snd bp)) -> disk w' d n = disk w d n) /\
     transfers w' = transfers w ++ [(true, dev (cache w (fst bp) (snd bp)),
                                           blockno (cache w (fst bp) (snd bp)))] /\
     (forall bp2,
        ident (cache w' (fst bp2) (snd bp2)) = ident (cache w (fst bp) (snd bp)) ->
        valid (cache w' (fst bp2) (snd bp2)) = 0 ->
        data (cache (bread_fill w' bp2) (fst bp2) (snd bp2))
        = data (cache w (fst bp) (snd bp)))).
Proof.
  unfold bwrite. split; intros H; rewrite H; cbn [negb]; [reflexivity|].
  eexists. split; [reflexivity|].
  set (b := cache w (fst bp) (snd bp)).
  assert (Hdisk : disk (virtio_disk_rw w bp true) (dev b) (blockno b) = data b).
  { unfold virtio_disk_rw. cbn [disk]. fold b. now rewrite !Z.eqb_refl. }
  split; [reflexivity|]. split; [exact Hdisk|]. split; [|split; [reflexivity|]].
  - intros d n Hne. unfold virtio_disk_rw. cbn [disk]. fold b.
    destruct (Z.eqb_spec d (dev b)) as [->|]; destruct (Z.eqb_spec n (blockno b)) as [->|];
      cbn [andb]; try reflexivity.
    now destruct Hne.
  - intros bp2 Hid Hv.
    destruct (bread_fill_spec (virtio_disk_rw w bp true) bp2) as (_ & _ & _ & Hload & _).
    destruct (Hload Hv) as [_ Hdata]. rewrite Hdata.
    assert (Hd : dev (cache (virtio_disk_rw w bp true) (fst bp2) (snd bp2)) = dev b)
      by exact (f_equal fst Hid).
    assert (Hb : blockno (cache (virtio_disk_rw w bp true) (fst bp2) (snd bp2)) = blockno b)
      by exact (f_equal snd Hid).
    rewrite Hd, Hb. exact Hdisk.
Qed.

Lemma bwrite_through_witness :
  holdingsleep (lock (full_cache 5 5 0 1)) 1 = true /\
  bwrite (mkWorld (full_cache 5 5) (fun _ _ => []) []) 2 (0, 1) = Panic "bwrite" /\
  exists w', bwrite (mkWorld (full_cache 5 5) (fun _ _ => []) []) 1 (0, 1) = Ok w' tt /\
             transfers w' = [(true, 1, 13)] /\
             disk w' 1 26 = [].
Proof.
  assert (H1 : holdingsleep
                 (lock (cache (mkWorld (full_cache 5 5) (fun _ _ => []) [])
                              (fst (0, 1)) (snd (0, 1)))) 1 = true)
    by (vm_compute; reflexivity).
  assert (H2 : holdingsleep
                 (lock (cache (mkWorld (full_cache 5 5) (fun _ _ => []) [])
                              (fst (0, 1)) (snd (0, 1)))) 2 = false)
    by (vm_compute; reflexivity).
  split; [exact H1|]. split.
  - exact (proj1 (bwrite_through (mkWorld (full_cache 5 5) (fun _ _ => []) []) 2 (0, 1)) H2).
  - destruct (proj2 (bwrite_through (mkWorld (full_cache 5 5) (fun _ _ => []) []) 1 (0, 1)) H1)
      as (w' & E & _ & _ & Hdisk & Htr & _).
    exists w'. split; [exact E|]. split.
    + rewrite Htr. vm_compute. reflexivity.
    + rewrite Hdisk; [reflexivity|]. vm_compute. discriminate.
Defined.

(** X8: [binit] writes the lock, the last-use and the reference count of
    the 13 x 7 slots and nothing else: validity, device, block number and
    payload of every slot stay as they were, nothing outside the array is
    written, and a second run changes nothing. *)
Theorem binit_writes bc k i :
  (in_cache k i ->
   lock (binit bc k i) = initsleeplock /\ refcnt (binit bc k i) = 0 /\
   lastuse (binit bc k i) = 0 /\
   valid (binit bc k i) = valid (bc k i) /\ dev (binit bc k i) = dev (bc k i) /\
   blockno (binit bc k i) = blockno (bc k i) /\ data (binit bc k i) = data (bc k i)) /\
  (~ in_cache k i -> binit bc k i = bc k i) /\
  binit (binit bc) k i = binit bc k i.
Proof.
  assert (Hout : forall c, ~ in_cache k i -> binit c k i = c k i).
  { intros c Hno. unfold binit. rewrite binit_loop.
    change (0 + Z.of_nat (Z.to_nat BUCKETSIZE)) with BUCKETSIZE.
    destruct (Z.leb_spec 0 k); destruct (Z.ltb_spec k BUCKETSIZE);
      destruct (Z.leb_spec 0 i); destruct (Z.ltb_spec i BUFFERSIZE);
      cbn [andb]; try reflexivity.
    exfalso. apply Hno. unfold in_cache. lia. }
  split; [|split].
  - intros Hin. rewrite binit_at by assumption. repeat split.
  - apply Hout.
  - assert (Hdec : in_cache k i \/ ~ in_cache k i) by (unfold in_cache; lia).
    destruct Hdec as [Hin | Hno].
    + rewrite !binit_at by assumption. reflexivity.
    + now rewrite !Hout.
Qed.

Lemma binit_writes_witness :
  in_cache 12 6 /\ ~ in_cache 13 0 /\
  refcnt (binit (full_cache 5 5) 12 6) = 0 /\
  blockno (binit (full_cache 5 5) 0 1) = 13 /\
  binit (full_cache 5 5) 13 0 = full_cache 5 5 13 0.
Proof.
  assert (H1 : in_cache 12 6) by (unfold in_cache, BUCKETSIZE, BUFFERSIZE; lia).
  assert (H2 : in_cache 0 1) by (unfold in_cache, BUCKETSIZE, BUFFERSIZE; lia).
  assert (H3 : ~ in_cache 13 0) by (unfold in_cache, BUCKETSIZE, BUFFERSIZE; lia).
  split; [exact H1|]. split; [exact H3|]. split; [|split].
  - exact (proj1 (proj2 (proj1 (binit_writes (full_cache 5 5) 12 6) H1))).
  - destruct (proj1 (binit_writes (full_cache 5 5) 0 1) H2) as (_ & _ & _ & _ & _ & Hb & _).
    rewrite Hb. vm_compute. reflexivity.
  - exact (proj1 (proj2 (binit_writes (full_cache 5 5) 13 0)) H3).
Defined.



(** X11: the reference count is a [uint] and its updates are not
    guarded.  Unpinning or releasing a buffer whose count is 0 leaves the
    count at 0xffffffff, and such a buffer is never recycled by a later
    [bget] for another block; pinning a buffer whose count is 0xffffffff
    leaves the count at 0. *)
Theorem refcnt_wraps bc p bp :
  (refcnt (bc (fst bp) (snd bp)) = 0 ->
   refcnt (bunpin bc bp (fst bp) (snd bp)) = UINT_MAX /\
   (holdingsleep (lock (bc (fst bp) (snd bp))) p = true ->
    exists bc1, brelse bc p bp = Ok bc1 tt /\ refcnt (bc1 (fst bp) (snd bp)) = UINT_MAX) /\
   (forall q dv bn t bc2 bp2,
      bget (bunpin bc bp) q dv bn t = Ok bc2 bp2 ->
      ident (bc (fst bp) (snd bp)) <> (dv, bn) -> bp2 <> bp)) /\
  (refcnt (bc (fst bp) (snd bp)) = UINT_MAX ->
   refcnt (bpin bc bp (fst bp) (snd bp)) = 0).
Proof.
  destruct bp as [k i]. cbn [fst snd]. split.
  - intros Hr. unfold bunpin, brelse. cbn [fst snd]. rewrite upd_same. cbn [refcnt set_refcnt].
    rewrite Hr. split; [reflexivity|]. split.
    + intros Hh. rewrite Hh. cbn [negb]. eexists. split; [reflexivity|].
      now rewrite upd_same.
    + intros q dv bn t bc2 bp2 Hget Hid.
      destruct (bget_other_ident _ _ _ _ _ _ _ k i Hget) as [Hne _].
      * now rewrite upd_same.
      * rewrite upd_same. cbn. discriminate.
      * congruence.
  - intros Hr. unfold bpin. cbn [fst snd]. rewrite upd_same. cbn [refcnt set_refcnt].
    now rewrite Hr.
Qed.

Lemma refcnt_wraps_witness :
  refcnt (binit bss 0 0) = 0 /\
  refcnt (bunpin (binit bss) (0, 0) 0 0) = 0xffffffff /\
  refcnt (bpin (bunpin (binit bss) (0, 0)) (0, 0) 0 0) = 0.
Proof.
  assert (H0 : refcnt (binit bss (fst (0, 0)) (snd (0, 0))) = 0) by (vm_compute; reflexivity).
  split; [exact H0|].
  pose proof (proj1 (proj1 (refcnt_wraps (binit bss) 1 (0, 0)) H0)) as H1.
  split; [exact H1|].
  exact (proj2 (refcnt_wraps (bunpin (binit bss) (0, 0)) 1 (0, 0)) H1).
Defined.

(** X12: a cached block is found.  In every state reachable from the
    initialised cache, when a slot carries a device and block number other
    than (0, 0), that slot lies in the bucket the block number selects and
    the critical section of [bget] for this block returns exactly that
    slot, with its validity and payload untouched: the block is never
    loaded into a second buffer. *)
Theorem cached_block_hit w k i dv bn t :
  reachable w -> in_cache k i ->
  ident (cache w k i) = (dv, bn) -> (dv, bn) <> (0, 0) ->
  k = hash bn /\
  exists bc0,
    bget_locked (cache w) dv bn t = Ok bc0 (k, i) /\
    ident (bc0 k i) = (dv, bn) /\ valid (bc0 k i) = valid (cache w k i) /\
    data (bc0 k i) = data (cache w k i).
Proof.
  intros R Hin Hid Hnz. destruct (reachable_ident_inv w R) as [HA HB].
  assert (Hk : k = hash bn).
  { destruct (HA k i Hin) as [H | H]; [congruence|].
    unfold ident in Hid. injection Hid as _ Hb. now rewrite <- Hb, H. }
  split; [assumption|]. subst k.
  assert (Hfirst : forall j, 0 <= j < i -> ident (cache w (hash bn) j) <> (dv, bn)).
  { intros j Hj E. apply Hnz. rewrite <- Hid.
    apply (HB (hash bn) i j); [assumption | | lia | congruence].
    destruct Hin as [Hkr Hir]. split; [assumption | lia]. }
  rewrite (bget_locked_hit_eq _ dv bn t i (proj2 Hin) Hid Hfirst).
  eexists. split; [reflexivity|]. rewrite upd_same. cbn. auto.
Qed.

Lemma cached_block_hit_witness :
  reachable (mkWorld (one_free_cache UINT_MAX 5) (fun _ _ => []) []) /\
  in_cache 0 1 /\
  exists bc0,
    bget_locked (cache (mkWorld (one_free_cache UINT_MAX 5) (fun _ _ => []) [])) 1 13 7
    = Ok bc0 (0, 1).
Proof.
  assert (Hin : in_cache 0 1) by (unfold in_cache, BUCKETSIZE, BUFFERSIZE; lia).
  split; [apply one_free_cache_reachable|]. split; [exact Hin|].
  destruct (cached_block_hit (mkWorld (one_free_cache UINT_MAX 5) (fun _ _ => []) [])
              0 1 1 13 7 (one_free_cache_reachable _) Hin) as (_ & bc0 & E & _).
  - vm_compute. reflexivity.
  - discriminate.
  - exists bc0. exact E.
Defined.

(* ------------------------------------------------------------------ *)
(** ** Buckets are independent *)

Lemma find_cached_ext bc bc' k dv bn n : forall i,
  (forall j, bc' k j = bc k j) ->
  find_cached bc' k dv bn n i = find_cached bc k dv bn n i.
Proof.
  induction n as [|n IH]; intros i H; cbn [find_cached]; [reflexivity|].
  rewrite H, IH by assumption. reflexivity.
Qed.

Lemma find_lru_ext bc bc' k n : forall i least idx,
  (forall j, bc' k j = bc k j) ->
  find_lru bc' k n i least idx = find_lru bc k n i least idx.
Proof.
  induction n as [|n IH]; intros i least idx H; cbn [find_lru]; [reflexivity|].
  rewrite H, !IH by assumption. reflexivity.
Qed.

Lemma bget_frame bc p dv bn t bc1 bp :
  bget bc p dv bn t = Ok bc1 bp ->
  fst bp = hash bn /\ forall k j, (k, j) <> bp -> bc1 k j = bc k j.
Proof.
  intros Hget. destruct (bget_ok _ _ _ _ _ _ _ Hget) as (bc0 & Hcs & Hlk).
  destruct (lock_buf_ok _ _ _ _ _ Hlk) as (_ & _ & ->).
  destruct (bget_locked_cases _ _ _ _ _ _ Hcs) as (Hk & _ & Hframe & _).
  split; [assumption|]. intros k j Hne. destruct bp as [k0 i0].
  rewrite upd_other by assumption. now apply Hframe.
Qed.

(** What [bget] does depends on the bucket of the block only. *)
Lemma bget_bucket_local bc bc' p dv bn t bc1 bp :
  (forall j, bc' (hash bn) j = bc (hash bn) j) ->
  bget bc p dv bn t = Ok bc1 bp ->
  exists bc1',
    bget bc' p dv bn t = Ok bc1' bp /\
    bc1' (fst bp) (snd bp) = bc1 (fst bp) (snd bp) /\
    forall k j, (k, j) <> bp -> bc1' k j = bc' k j.
Proof.
  intros H. unfold bget, bget_locked.
  rewrite (find_cached_ext bc bc' (hash bn) dv bn _ 0 H).
  rewrite (find_lru_ext bc bc' (hash bn) _ 0 UINT_MAX (-1) H).
  destruct (find_cached bc (hash bn) dv bn (Z.to_nat BUFFERSIZE) 0) as [i|].
  - rewrite H. unfold lock_buf, acquiresleep. cbn [fst snd]. rewrite !upd_same.
    destruct (locked _); [discriminate|]. intros [= <- <-]. cbn [fst snd].
    eexists. split; [reflexivity|]. rewrite !upd_same. split; [reflexivity|].
    intros k j Hne. now rewrite !upd_other by assumption.
  - destruct (_ =? _); [discriminate|].
    rewrite H. unfold lock_buf, acquiresleep. cbn [fst snd]. rewrite !upd_same.
    destruct (locked _); [discriminate|]. intros [= <- <-]. cbn [fst snd].
    eexists. split; [reflexivity|]. rewrite !upd_same. split; [reflexivity|].
    intros k j Hne. now rewrite !upd_other by assumption.
Qed.

(** X20: acquisitions in different buckets do not interfere.  When two
    blocks hash to different buckets and [bget] for the first and then
    for the second return, then [bget] for the second and then for the
    first return the same two buffers and leave the same cache. *)
Theorem bget_buckets_commute bc p1 d1 bn1 t1 p2 d2 bn2 t2 bcA bpA bcAB bpB :
  hash bn1 <> hash bn2 ->
  bget bc p1 d1 bn1 t1 = Ok bcA bpA ->
  bget bcA p2 d2 bn2 t2 = Ok bcAB bpB ->
  exists bcB bcBA,
    bget bc p2 d2 bn2 t2 = Ok bcB bpB /\
    bget bcB p1 d1 bn1 t1 = Ok bcBA bpA /\
    forall k j, bcBA k j = bcAB k j.
Proof.
  intros Hk HA HAB.
  destruct (bget_frame _ _ _ _ _ _ _ HA) as [HkA HfA].
  destruct (bget_frame _ _ _ _ _ _ _ HAB) as [HkB HfB].
  assert (Hne : bpA <> bpB) by (intros ->; congruence).
  destruct (bget_bucket_local bcA bc p2 d2 bn2 t2 bcAB bpB) as (bcB & HB & HBat & HBout);
    [|assumption|].
  { intros j. symmetry. apply HfA. intros <-. cbn [fst] in HkA. congruence. }
  destruct (bget_bucket_local bc bcB p1 d1 bn1 t1 bcA bpA) as (bcBA & HBA & HBAat & HBAout);
    [|assumption|].
  { intros j. apply HBout. intros <-. cbn [fst] in HkB. congruence. }
  exists bcB, bcBA. split; [assumption|]. split; [assumption|].
  intros k j.
  assert (Hdec : (k, j) = bpA \/ (k, j) = bpB \/ ((k, j) <> bpA /\ (k, j) <> bpB)).
  { destruct bpA as [kA iA], bpB as [kB iB].
    destruct (Z.eq_dec k kA); destruct (Z.eq_dec j iA);
      destruct (Z.eq_dec k kB); destruct (Z.eq_dec j iB);
      first [ left; congruence | right; left; congruence
            | right; right; split; congruence ]. }
  destruct Hdec as [E | [E | [E1 E2]]].
  - subst bpA. cbn [fst snd] in *. rewrite HBAat. symmetry. now apply HfB.
  - subst bpB. cbn [fst snd] in *. rewrite HBAout by congruence. exact HBat.
  - rewrite HBAout, HBout, HfB, HfA by assumption. reflexivity.
Qed.

Lemma bget_buckets_commute_witness :
  hash 13 <> hash 14 /\
  exists bcB bcBA,
    bget (binit bss) 2 1 14 6 = Ok bcB (1, 0) /\
    bget bcB 1 1 13 5 = Ok bcBA (0, 0).
Proof.
  assert (Hk : hash 13 <> hash 14) by discriminate.
  assert (HA : bget (binit bss) 1 1 13 5 = Ok (state_of (bget (binit bss) 1 1 13 5)) (0, 0))
    by (vm_compute; reflexivity).
  assert (HAB : bget (state_of (bget (binit bss) 1 1 13 5)) 2 1 14 6
                = Ok (state_of (bget (state_of (bget (binit bss) 1 1 13 5)) 2 1 14 6)) (1, 0))
    by (vm_compute; reflexivity).
  split; [exact Hk|].
  destruct (bget_buckets_commute _ _ _ _ _ _ _ _ _ _ _ _ _ Hk HA HAB)
    as (bcB & bcBA & HB & HBA & _).
  exists bcB, bcBA. now split.
Defined.

End BioFacts.

(* ================================================================== *)
(** * Properties of the page allocator *)

Module KallocFacts.
Import Kalloc.

Section WithLayout.
Context {L : Layout}.

Lemma set_head_same f c v : set_head f c v c = v.
Proof. unfold set_head. now rewrite Z.eqb_refl. Qed.

Lemma set_head_other f c v c' : c' <> c -> set_head f c v c' = f c'.
Proof. intros H. unfold set_head. now destruct (Z.eqb_spec c' c). Qed.

Lemma set_pool_same ls c l : set_pool ls c l c = l.
Proof. unfold set_pool. now rewrite Z.eqb_refl. Qed.

Lemma set_pool_other ls c l c' : c' <> c -> set_pool ls c l c' = ls c'.
Proof. intros H. unfold set_pool. now destruct (Z.eqb_spec c' c). Qed.

Lemma store_same m a v : store m a v a = v.
Proof. unfold store. now rewrite Z.eqb_refl. Qed.

(** Two distinct page-aligned addresses are a page apart. *)
Lemma aligned_apart p q :
  p mod PGSIZE = 0 -> q mod PGSIZE = 0 -> p <> q ->
  ~ (q <= p /\ p + 8 <= q + PGSIZE).
Proof.
  unfold PGSIZE. intros Hp Hq Hne [H1 H2].
  pose proof (Z.div_mod p 4096 ltac:(lia)). pose proof (Z.div_mod q 4096 ltac:(lia)). lia.
Qed.

Lemma memset_other m pa c p :
  p mod PGSIZE = 0 -> pa mod PGSIZE = 0 -> p <> pa -> memset m pa c p = m p.
Proof.
  intros Hp Hpa Hne. unfold memset.
  destruct (Z.leb_spec pa p); destruct (Z.leb_spec (p + 8) (pa + PGSIZE)); simpl; try reflexivity.
  exfalso. now apply (aligned_apart p pa Hp Hpa Hne).
Qed.

Lemma memset_same m pa c : memset m pa c pa = fill c.
Proof.
  unfold memset, PGSIZE.
  destruct (Z.leb_spec pa pa); destruct (Z.leb_spec (pa + 8) (pa + 4096)); simpl; try reflexivity; lia.
Qed.

(** ** kfree *)

Lemma kfree_ok s cpu pa :
  page_ok pa ->
  kfree s cpu pa =
  Ok (mkKmem (set_head (freelist s) cpu pa)
             (store (memset (next s) pa 1) pa (freelist s cpu))) tt.
Proof.
  intros (Ha & Hl & Hh). unfold kfree.
  destruct (Z.eqb_spec (pa mod PGSIZE) 0); [|contradiction].
  destruct (Z.ltb_spec pa KEND); [lia|].
  destruct (Z.geb_spec pa PHYSTOP); [lia|]. reflexivity.
Qed.

Lemma kfree_panics s cpu pa : ~ page_ok pa -> kfree s cpu pa = Panic "kfree".
Proof.
  intros H. unfold kfree.
  destruct (Z.eqb_spec (pa mod PGSIZE) 0); [|reflexivity].
  destruct (Z.ltb_spec pa KEND); [reflexivity|].
  destruct (Z.geb_spec pa PHYSTOP); [reflexivity|].
  exfalso. apply H. unfold page_ok. lia.
Qed.

Lemma page_ok_dec pa : page_ok pa \/ ~ page_ok pa.
Proof. unfold page_ok. lia. Qed.

Lemma kfree_inv s cpu pa s' :
  kfree s cpu pa = Ok s' tt ->
  page_ok pa /\
  s' = mkKmem (set_head (freelist s) cpu pa)
              (store (memset (next s) pa 1) pa (freelist s cpu)).
Proof.
  intros H. destruct (page_ok_dec pa) as [Hok|Hno].
  - rewrite (kfree_ok s cpu pa Hok) in H. injection H as <-. now split.
  - rewrite (kfree_panics s cpu pa Hno) in H. discriminate.
Qed.

(** ** pop, steal, kalloc *)

Lemma pop_empty s c : freelist s c = 0 -> pop s c = Ok s 0.
Proof. intros H. unfold pop. now rewrite H. Qed.

Lemma pop_page s c :
  freelist s c <> 0 -> 0 <= freelist s c < PHYSTOP ->
  pop s c = Ok (mkKmem (set_head (freelist s) c (next s (freelist s c))) (next s))
               (freelist s c).
Proof.
  intros Hne Hr. unfold pop, load.
  destruct (Z.eqb_spec (freelist s c) 0); [contradiction|].
  destruct (Z.leb_spec 0 (freelist s c)); [|lia].
  destruct (Z.ltb_spec (freelist s c) PHYSTOP); [|lia]. reflexivity.
Qed.

Lemma pop_inv s c s' r :
  pop s c = Ok s' r ->
  (r = 0 /\ s' = s /\ freelist s c = 0) \/
  (r <> 0 /\ r = freelist s c /\ 0 <= r < PHYSTOP /\
   s' = mkKmem (set_head (freelist s) c (next s r)) (next s)).
Proof.
  unfold pop, load.
  destruct (Z.eqb_spec (freelist s c) 0) as [E|E].
  - intros [= <- <-]. left. auto.
  - destruct (Z.leb_spec 0 (freelist s c)); destruct (Z.ltb_spec (freelist s c) PHYSTOP);
      simpl; try discriminate.
    intros [= <- <-]. right. repeat split; auto.
Qed.

Lemma steal_empty s cpu n i0 :
  (forall i, i0 <= i < i0 + Z.of_nat n -> freelist s ((cpu + i) mod NCPU) = 0) ->
  steal s cpu n i0 = Ok s 0.
Proof.
  revert i0. induction n as [|n IH]; intros i0 H; cbn [steal]; [reflexivity|].
  rewrite pop_empty by (apply H; lia). cbn. apply IH. intros i Hi. apply H. lia.
Qed.

Lemma steal_first s cpu n i0 j :
  i0 <= j < i0 + Z.of_nat n ->
  (forall i, i0 <= i < j -> freelist s ((cpu + i) mod NCPU) = 0) ->
  freelist s ((cpu + j) mod NCPU) <> 0 ->
  0 <= freelist s ((cpu + j) mod NCPU) < PHYSTOP ->
  steal s cpu n i0 = pop s ((cpu + j) mod NCPU).
Proof.
  revert i0. induction n as [|n IH]; intros i0 Hj Hempty Hne Hr; [lia|].
  cbn [steal]. destruct (Z.eq_dec j i0) as [->|Hji].
  - rewrite (pop_page _ _ Hne Hr).
    destruct (Z.eqb_spec (freelist s ((cpu + i0) mod NCPU)) 0); [contradiction | reflexivity].
  - rewrite pop_empty by (apply Hempty; lia). cbn.
    apply IH; try assumption; [lia|]. intros i Hi. apply Hempty. lia.
Qed.

Lemma steal_inv s cpu n i0 s' r :
  steal s cpu n i0 = Ok s' r ->
  (r = 0 /\ s' = s) \/ (r <> 0 /\ exists c, pop s c = Ok s' r).
Proof.
  revert i0. induction n as [|n IH]; intros i0; cbn [steal].
  - intros [= <- <-]. now left.
  - destruct (pop s ((cpu + i0) mod NCPU)) as [s1 r1| | |] eqn:E; try discriminate.
    destruct (Z.eqb_spec r1 0) as [->|Hne].
    + destruct (pop_inv _ _ _ _ E) as [(_ & -> & _) | (Hc & _)]; [|contradiction].
      apply IH.
    + intros [= <- <-]. right. split; [assumption|]. eauto.
Qed.

(** [kalloc] is a single pop of some pool, followed by the fill. *)
Lemma kalloc_inv s cpu s' r :
  kalloc s cpu = Ok s' r ->
  (r = 0 /\ s' = s) \/
  (r <> 0 /\ exists c s1, pop s c = Ok s1 r /\
                          s' = mkKmem (freelist s1) (memset (next s1) r 5)).
Proof.
  unfold kalloc.
  destruct (pop s cpu) as [s1 r1| | |] eqn:E; try discriminate.
  destruct (Z.eqb_spec r1 0) as [->|Hne].
  - destruct (pop_inv _ _ _ _ E) as [(_ & -> & _) | (Hc & _)]; [|contradiction].
    destruct (steal s cpu (Z.to_nat (NCPU - 1)) 1) as [s2 r2| | |] eqn:E2; try discriminate.
    destruct (steal_inv _ _ _ _ _ _ E2) as [(-> & ->) | (Hne & c & Hpop)].
    + cbn. intros [= <- <-]. now left.
    + destruct (Z.eqb_spec r2 0); [contradiction|].
      intros [= <- <-]. right. split; [assumption|]. eauto.
  - destruct (Z.eqb_spec r1 0); [contradiction|].
    intros [= <- <-]. right. split; [assumption|]. eauto.
Qed.

(** Stealing: the pools after [cpu] are empty up to the [j]-th, whose head
    is taken. *)
Lemma kalloc_steal_first s cpu j :
  freelist s cpu = 0 -> 1 <= j < NCPU ->
  (forall i, 1 <= i < j -> freelist s ((cpu + i) mod NCPU) = 0) ->
  freelist s ((cpu + j) mod NCPU) <> 0 ->
  0 <= freelist s ((cpu + j) mod NCPU) < PHYSTOP ->
  kalloc s cpu =
  Ok (mkKmem (set_head (freelist s) ((cpu + j) mod NCPU)
                       (next s (freelist s ((cpu + j) mod NCPU))))
             (memset (next s) (freelist s ((cpu + j) mod NCPU)) 5))
     (freelist s ((cpu + j) mod NCPU)).
Proof.
  intros Hown Hj Hempty Hne Hr. unfold kalloc. rewrite (pop_empty _ _ Hown). cbn [Z.eqb].
  rewrite (steal_first s cpu _ 1 j); try assumption; [|lia].
  rewrite (pop_page _ _ Hne Hr).
  destruct (Z.eqb_spec (freelist s ((cpu + j) mod NCPU)) 0); [contradiction | reflexivity].
Qed.

Lemma kalloc_all_empty s cpu :
  freelist s cpu = 0 ->
  (forall i, 1 <= i < NCPU -> freelist s ((cpu + i) mod NCPU) = 0) ->
  kalloc s cpu = Ok s 0.
Proof.
  intros Hown Hall. unfold kalloc. rewrite (pop_empty _ _ Hown). cbn [Z.eqb].
  rewrite steal_empty; [reflexivity|]. intros i Hi. apply Hall. lia.
Qed.

(** C3: when the pool of the calling processor is empty, [kalloc] visits
    the pools (cpu+1) mod NCPU, (cpu+2) mod NCPU, ... in this order and
    pops the head of the first that is not empty (its head becomes the
    link of the page taken, no other pool changes, the page is filled with
    5); when every pool is empty it returns the null pointer and changes
    nothing, it does not panic. *)
Theorem kalloc_steals s cpu :
  freelist s cpu = 0 ->
  ((forall i, 1 <= i < NCPU -> freelist s ((cpu + i) mod NCPU) = 0) ->
   kalloc s cpu = Ok s 0) /\
  (forall j, 1 <= j < NCPU ->
     (forall i, 1 <= i < j -> freelist s ((cpu + i) mod NCPU) = 0) ->
     freelist s ((cpu + j) mod NCPU) <> 0 ->
     0 <= freelist s ((cpu + j) mod NCPU) < PHYSTOP ->
     exists s',
       kalloc s cpu = Ok s' (freelist s ((cpu + j) mod NCPU)) /\
       freelist s' ((cpu + j) mod NCPU) = next s (freelist s ((cpu + j) mod NCPU)) /\
       (forall c, c <> (cpu + j) mod NCPU -> freelist s' c = freelist s c) /\
       (forall a, next s' a = memset (next s) (freelist s ((cpu + j) mod NCPU)) 5 a)).
Proof.
  intros Hown. split.
  - now apply kalloc_all_empty.
  - intros j Hj Hempty Hne Hr.
    eexists. split; [now apply kalloc_steal_first|]. cbn [freelist next].
    split; [apply set_head_same|]. split; [|reflexivity].
    intros c Hc. now apply set_head_other.
Qed.

(** ** Bounds of the pages handed out *)

Lemma okptr_mono (F G : Z -> Prop) x : (forall p, F p -> G p) -> okptr F x -> okptr G x.
Proof. unfold okptr. intros H [H0 | [H5 | HF]]; auto. Qed.

Lemma links_ok_boot s : boot s -> links_ok (fun _ => False) s.
Proof.
  intros Hb. split; [|split].
  - intros p [].
  - intros c. left. apply Hb.
  - intros p [].
Qed.

Lemma links_ok_kfree F s cpu pa s' :
  links_ok F s -> kfree s cpu pa = Ok s' tt ->
  links_ok (fun p => F p \/ p = pa) s'.
Proof.
  intros (Hpages & Hheads & Hlinks) Hfree.
  destruct (kfree_inv _ _ _ _ Hfree) as [Hok ->]. cbn [freelist next].
  assert (Hmono : forall x, okptr F x -> okptr (fun p => F p \/ p = pa) x)
    by (intros x; apply okptr_mono; auto).
  split; [|split].
  - intros p [Hp | ->]; auto.
  - intros c. cbn [freelist]. destruct (Z.eq_dec c cpu) as [->|Hc].
    + rewrite set_head_same. right. right. now right.
    + rewrite set_head_other by assumption. apply Hmono, Hheads.
  - intros p Hp. cbn [next]. unfold store. destruct (Z.eqb_spec p pa) as [->|Hne].
    + apply Hmono, Hheads.
    + destruct Hp as [Hp | ->]; [|contradiction].
      rewrite memset_other; [apply Hmono, Hlinks, Hp | apply Hpages, Hp | apply Hok | assumption].
Qed.

Lemma links_ok_pop F s c s' r :
  PHYSTOP <= fill 5 ->
  links_ok F s -> pop s c = Ok s' r ->
  links_ok F s' /\ (r = 0 \/ F r).
Proof.
  intros Hjunk (Hpages & Hheads & Hlinks) Hpop.
  destruct (pop_inv _ _ _ _ Hpop) as [(-> & -> & _) | (Hne & Hr & Hmem & ->)].
  - split; [split; [|split]; assumption | now left].
  - assert (HF : F r).
    { destruct (Hheads c) as [H0 | [H5 | HF]]; [congruence | lia | now rewrite Hr]. }
    split; [|now right]. split; [assumption|]. split; [|assumption].
    intros c'. cbn [freelist]. destruct (Z.eq_dec c' c) as [->|Hc].
    + rewrite set_head_same. apply Hlinks, HF.
    + rewrite set_head_other by assumption. apply Hheads.
Qed.

Lemma links_ok_kalloc F s cpu s' r :
  PHYSTOP <= fill 5 ->
  links_ok F s -> kalloc s cpu = Ok s' r ->
  links_ok F s' /\ (r = 0 \/ F r).
Proof.
  intros Hjunk Hinv Halloc.
  destruct (kalloc_inv _ _ _ _ Halloc) as [(-> & ->) | (Hne & c & s1 & Hpop & ->)].
  - split; [assumption | now left].
  - destruct (links_ok_pop _ _ _ _ _ Hjunk Hinv Hpop) as [(Hpages & Hheads & Hlinks) [H0 | HF]];
      [contradiction|].
    split; [|now right]. split; [assumption|]. split; [assumption|].
    intros p Hp. cbn [next]. destruct (Z.eq_dec p r) as [->|Hpr].
    + rewrite memset_same. right. now left.
    + rewrite memset_other; [apply Hlinks, Hp | apply Hpages, Hp | apply Hpages, HF | assumption].
Qed.

Lemma reachable_links_ok s :
  PHYSTOP <= fill 5 -> reachable s -> exists F, links_ok F s.
Proof.
  intros Hjunk. induction 1 as [s Hb | s cpu pa s' _ [F IH] Hfree | s cpu s' r _ [F IH] Halloc].
  - eexists. now apply links_ok_boot.
  - eexists. eapply links_ok_kfree; eassumption.
  - exists F. eapply links_ok_kalloc; eassumption.
Qed.

(** C4: [kfree] panics exactly on an address that is not page-aligned, is
    below [end] or is at or above [PHYSTOP], and returns on every other;
    and in every state reached from boot by calls of [kfree] and [kalloc]
    a page [kalloc] returns is page-aligned and within that range.  (The
    fill pattern 0x0505050505050505 is not an address of memory.) *)
Theorem kfree_kalloc_bounds :
  PHYSTOP <= fill 5 ->
  (forall s cpu pa, kfree s cpu pa = Panic "kfree" <-> ~ page_ok pa) /\
  (forall s cpu pa, page_ok pa -> exists s', kfree s cpu pa = Ok s' tt) /\
  (forall s, reachable s ->
     forall cpu s' r, kalloc s cpu = Ok s' r -> r <> 0 -> page_ok r).
Proof.
  intros Hjunk. split; [|split].
  - intros s cpu pa. split.
    + intros H Hok. rewrite (kfree_ok s cpu pa Hok) in H. discriminate.
    + apply kfree_panics.
  - intros s cpu pa Hok. eexists. now apply kfree_ok.
  - intros s R cpu s' r Halloc Hne.
    destruct (reachable_links_ok s Hjunk R) as [F Hinv].
    destruct (links_ok_kalloc _ _ _ _ _ Hjunk Hinv Halloc) as [_ [H0 | HF]]; [contradiction|].
    now apply Hinv.
Qed.

(** ** Conservation *)

Lemma is_list_frame m m' h l :
  is_list m h l -> (forall p, In p l -> m' p = m p) -> is_list m' h l.
Proof.
  induction 1 as [|h l Hne _ IH]; intros Hsame; constructor; [assumption|].
  rewrite (Hsame h) by now left. apply IH. intros p Hp. apply Hsame. now right.
Qed.

Lemma is_list_cons_inv m h l :
  is_list m h l -> h <> 0 -> exists l', l = h :: l' /\ is_list m (m h) l'.
Proof. intros H Hne. inversion H; subst; [contradiction | eauto]. Qed.

Lemma on_list_in m h l p : is_list m h l -> (on_list m h p <-> In p l).
Proof.
  intros Hl. split.
  - intros Hon. revert l Hl. induction Hon as [h Hne | h p Hne _ IH]; intros l Hl.
    + destruct (is_list_cons_inv _ _ _ Hl Hne) as (l' & -> & _). now left.
    + destruct (is_list_cons_inv _ _ _ Hl Hne) as (l' & -> & Hl'). right. now apply IH.
  - induction Hl as [|h l Hne _ IH]; intros Hin; [contradiction|].
    destruct Hin as [<- | Hin]; [now constructor | apply on_list_next; auto].
Qed.

Lemma pools_is_free ls s p : pools ls s -> (is_free s p <-> exists c, In p (ls c)).
Proof.
  intros (Hl & _). unfold is_free. split; intros [c H]; exists c;
    now apply (on_list_in _ _ _ p (Hl c)).
Qed.

Lemma pools_boot s : boot s -> pools (fun _ => []) s.
Proof.
  intros Hb. split; [|split; [|split]].
  - intros c. rewrite (Hb c). constructor.
  - intros c p [].
  - intros c. constructor.
  - intros c1 c2 p _ [].
Qed.

Lemma pools_pop ls s c s' r :
  pools ls s -> pop s c = Ok s' r -> r <> 0 ->
  exists l', ls c = r :: l' /\ pools (set_pool ls c l') s'.
Proof.
  intros (Hl & Hok & Hnd & Hdis) Hpop Hne.
  destruct (pop_inv _ _ _ _ Hpop) as [(-> & _) | (_ & Hr & _ & ->)]; [contradiction|].
  pose proof (Hl c) as Hc. rewrite <- Hr in Hc.
  destruct (is_list_cons_inv _ _ _ Hc Hne) as (l' & El & Hl').
  exists l'. split; [assumption|].
  assert (Hsub : forall c' p, In p (set_pool ls c l' c') -> In p (ls c')).
  { intros c' p. destruct (Z.eq_dec c' c) as [->|Hc'].
    - rewrite set_pool_same, El. now right.
    - now rewrite set_pool_other by assumption. }
  split; [|split; [|split]].
  - intros c'. cbn [freelist next]. destruct (Z.eq_dec c' c) as [->|Hc'].
    + now rewrite set_head_same, set_pool_same.
    + rewrite set_head_other, set_pool_other by assumption. apply Hl.
  - intros c' p Hp. apply (Hok c'), Hsub, Hp.
  - intros c'. destruct (Z.eq_dec c' c) as [->|Hc'].
    + rewrite set_pool_same. specialize (Hnd c). rewrite El in Hnd. now inversion Hnd.
    + rewrite set_pool_other by assumption. apply Hnd.
  - intros c1 c2 p Hc12 H1 H2. apply (Hdis c1 c2 p Hc12); now apply Hsub.
Qed.

(** An allocation either finds nothing and changes nothing, or takes the
    head of one pool and leaves the pools disjoint. *)
Lemma pools_kalloc ls s cpu s' r :
  pools ls s -> kalloc s cpu = Ok s' r ->
  (r = 0 /\ s' = s) \/
  (r <> 0 /\ exists c l', ls c = r :: l' /\ pools (set_pool ls c l') s').
Proof.
  intros Hp Halloc.
  destruct (kalloc_inv _ _ _ _ Halloc) as [H0 | (Hne & c & s1 & Hpop & ->)]; [now left|].
  right. split; [assumption|].
  destruct (pools_pop _ _ _ _ _ Hp Hpop Hne) as (l' & El & (Hl & Hok & Hnd & Hdis)).
  exists c, l'. split; [assumption|].
  assert (Hr : page_ok r).
  { destruct Hp as (_ & Hok0 & _). apply (Hok0 c). rewrite El. now left. }
  assert (Hfresh : forall c' p, In p (set_pool ls c l' c') -> p <> r).
  { intros c' p Hin ->. destruct Hp as (_ & _ & Hnd0 & Hdis0).
    destruct (Z.eq_dec c' c) as [->|Hc'].
    - rewrite set_pool_same in Hin. specialize (Hnd0 c). rewrite El in Hnd0.
      now inversion Hnd0.
    - rewrite set_pool_other in Hin by assumption.
      apply (Hdis0 c' c r Hc' Hin). rewrite El. now left. }
  split; [|split; [|split]]; try assumption.
  intros c'. cbn [freelist next]. apply (is_list_frame (next s1)); [apply Hl|].
  intros p Hin. apply memset_other; [apply (Hok c' p Hin) | apply Hr | apply (Hfresh c' p Hin)].
Qed.

(** Freeing a page that is on no pool puts it at the head of the pool of
    the calling processor and leaves the pools disjoint. *)
Lemma pools_kfree ls s cpu pa s' :
  0 < KEND ->
  pools ls s -> (forall c, ~ In pa (ls c)) -> kfree s cpu pa = Ok s' tt ->
  pools (set_pool ls cpu (pa :: ls cpu)) s'.
Proof.
  intros Hkend (Hl & Hok & Hnd & Hdis) Hnew Hfree.
  destruct (kfree_inv _ _ _ _ Hfree) as [Hpa ->].
  assert (Hframe : forall c p, In p (ls c) ->
            store (memset (next s) pa 1) pa (freelist s cpu) p = next s p).
  { intros c p Hin. assert (p <> pa) by (intros ->; now apply (Hnew c)).
    unfold store. destruct (Z.eqb_spec p pa); [contradiction|].
    apply memset_other; [apply (Hok c p Hin) | apply Hpa | assumption]. }
  split; [|split; [|split]].
  - intros c. cbn [freelist next]. destruct (Z.eq_dec c cpu) as [->|Hc].
    + rewrite set_head_same, set_pool_same. constructor.
      * destruct Hpa as (_ & Hlo & _). lia.
      * rewrite (store_same (memset (next s) pa 1) pa (freelist s cpu)).
        apply (is_list_frame (next s)); [apply Hl | apply Hframe].
    + rewrite set_head_other, set_pool_other by assumption.
      apply (is_list_frame (next s)); [apply Hl | apply Hframe].
  - intros c p. destruct (Z.eq_dec c cpu) as [->|Hc].
    + rewrite set_pool_same. intros [<- | Hin]; [assumption | now apply (Hok cpu)].
    + rewrite set_pool_other by assumption. apply Hok.
  - intros c. destruct (Z.eq_dec c cpu) as [->|Hc].
    + rewrite set_pool_same. constructor; [apply Hnew | apply Hnd].
    + rewrite set_pool_other by assumption. apply Hnd.
  - intros c1 c2 p Hc12.
    destruct (Z.eq_dec c1 cpu) as [->|H1]; destruct (Z.eq_dec c2 cpu) as [->|H2];
      try contradiction;
      rewrite ?set_pool_same, ?set_pool_other by assumption.
    + intros [<- | Hin]; [apply Hnew | now apply (Hdis cpu c2 p)].
    + intros Hin [<- | Hin2]; [now apply (Hnew c1) | now apply (Hdis c1 cpu p)].
    + now apply Hdis.
Qed.

Lemma dcall_pools s e s' :
  0 < KEND -> dcall s e s' -> disjoint_pools s -> disjoint_pools s'.
Proof.
  intros Hkend Hcall [ls Hp]. destruct Hcall as [s cpu s' r Halloc | s cpu pa s' Hnot Hfree].
  - destruct (pools_kalloc _ _ _ _ _ Hp Halloc) as [(_ & ->) | (_ & c & l' & _ & Hp')].
    + now exists ls.
    + eexists. exact Hp'.
  - eexists. apply (pools_kfree ls s cpu pa s' Hkend Hp); [|assumption].
    intros c Hin. apply Hnot. apply (pools_is_free ls s pa Hp). eauto.
Qed.

(** A call makes no page free but the one it frees. *)
Lemma dcall_is_free s e s' p :
  0 < KEND -> dcall s e s' -> disjoint_pools s -> is_free s' p ->
  is_free s p \/ exists c, e = Free c p.
Proof.
  intros Hkend Hcall [ls Hp] Hfree'.
  destruct Hcall as [s cpu s' r Halloc | s cpu pa s' Hnot Hfree].
  - left. destruct (pools_kalloc _ _ _ _ _ Hp Halloc) as [(_ & ->) | (_ & c & l' & El & Hp')];
      [assumption|].
    apply (pools_is_free _ _ p Hp') in Hfree'. destruct Hfree' as [c' Hin].
    apply (pools_is_free _ _ p Hp). exists c'.
    destruct (Z.eq_dec c' c) as [->|Hc'].
    + rewrite set_pool_same in Hin. rewrite El. now right.
    + now rewrite set_pool_other in Hin by assumption.
  - assert (Hp' : pools (set_pool ls cpu (pa :: ls cpu)) s').
    { apply (pools_kfree ls s cpu pa s' Hkend Hp); [|assumption].
      intros c Hin. apply Hnot. apply (pools_is_free ls s pa Hp). eauto. }
    apply (pools_is_free _ _ p Hp') in Hfree'. destruct Hfree' as [c' Hin].
    destruct (Z.eq_dec c' cpu) as [->|Hc'].
    + rewrite set_pool_same in Hin. destruct Hin as [<- | Hin]; [right; eauto|].
      left. apply (pools_is_free _ _ p Hp). eauto.
    + rewrite set_pool_other in Hin by assumption.
      left. apply (pools_is_free _ _ p Hp). eauto.
Qed.

(** The page an allocation returns was free before and is not after. *)
Lemma kalloc_takes s cpu s' r :
  disjoint_pools s -> kalloc s cpu = Ok s' r -> r <> 0 ->
  is_free s r /\ ~ is_free s' r.
Proof.
  intros [ls Hp] Halloc Hne.
  destruct (pools_kalloc _ _ _ _ _ Hp Halloc) as [(-> & _) | (_ & c & l' & El & Hp')];
    [contradiction|].
  split.
  - apply (pools_is_free _ _ r Hp). exists c. rewrite El. now left.
  - intros Hfree. apply (pools_is_free _ _ r Hp') in Hfree. destruct Hfree as [c' Hin].
    destruct Hp as (_ & _ & Hnd & Hdis).
    destruct (Z.eq_dec c' c) as [->|Hc'].
    + rewrite set_pool_same in Hin. specialize (Hnd c). rewrite El in Hnd. now inversion Hnd.
    + rewrite set_pool_other in Hin by assumption.
      apply (Hdis c' c r Hc' Hin). rewrite El. now left.
Qed.

Lemma pop_returns ls s c :
  0 < KEND -> pools ls s ->
  exists s' r, pop s c = Ok s' r /\ ((r = 0 /\ s' = s) \/ (r <> 0 /\ page_ok r)).
Proof.
  intros Hkend (Hl & Hok & _).
  destruct (Z.eq_dec (freelist s c) 0) as [E|E].
  - exists s, 0. split; [now apply pop_empty | now left].
  - destruct (is_list_cons_inv _ _ _ (Hl c) E) as (l' & El & _).
    assert (Hp : page_ok (freelist s c)) by (apply (Hok c); rewrite El; now left).
    eexists _, _. split; [|right; split; eassumption].
    apply pop_page; [assumption|]. destruct Hp as (_ & Hlo & Hhi). lia.
Qed.

Lemma steal_returns ls s cpu n : forall i,
  0 < KEND -> pools ls s ->
  exists s' r, steal s cpu n i = Ok s' r /\ (r = 0 \/ page_ok r).
Proof.
  induction n as [|n IH]; intros i Hkend Hp; cbn [steal].
  - exists s, 0. split; [reflexivity | now left].
  - destruct (pop_returns ls s ((cpu + i) mod NCPU) Hkend Hp)
      as (s1 & r & -> & [(-> & ->) | (Hne & Hok)]).
    + cbn [Z.eqb]. now apply IH.
    + destruct (Z.eqb_spec r 0); [contradiction|]. exists s1, r. split; [reflexivity | now right].
Qed.

(** With disjoint pools [kalloc] always returns, the null pointer or a
    valid page: it neither panics nor touches memory it should not. *)
Lemma kalloc_returns s cpu :
  0 < KEND -> disjoint_pools s ->
  exists s' r, kalloc s cpu = Ok s' r /\ (r = 0 \/ page_ok r).
Proof.
  intros Hkend [ls Hp]. unfold kalloc.
  destruct (pop_returns ls s cpu Hkend Hp) as (s1 & r & -> & [(-> & ->) | (Hne & Hok)]).
  - cbn [Z.eqb].
    destruct (steal_returns ls s cpu (Z.to_nat (NCPU - 1)) 1 Hkend Hp)
      as (s2 & r2 & -> & Hr2).
    destruct (Z.eqb_spec r2 0) as [->|Hne2].
    + exists s2, 0. split; [reflexivity | now left].
    + eexists _, r2. split; [reflexivity|]. destruct Hr2; [contradiction | now right].
  - assert (E : (r =? 0) = false) by now apply Z.eqb_neq.
    rewrite !E. eexists _, r. split; [reflexivity | now right].
Qed.

Lemma run_app R s tr1 tr2 s' :
  run R s (tr1 ++ tr2) s' -> exists sm, run R s tr1 sm /\ run R sm tr2 s'.
Proof.
  revert s. induction tr1 as [|e tr1 IH]; intros s H; cbn [app] in H.
  - exists s. split; [constructor | assumption].
  - inversion H as [|s0 e0 s1 tr0 s2 Hstep Hrest]; subst.
    destruct (IH _ Hrest) as (sm & H1 & H2).
    exists sm. split; [econstructor; eassumption | assumption].
Qed.

Lemma run_pools s tr s' :
  0 < KEND -> run dcall s tr s' -> disjoint_pools s -> disjoint_pools s'.
Proof.
  intros Hkend. induction 1 as [|s e s1 tr s' Hstep _ IH]; intros Hp; [assumption|].
  apply IH. eapply dcall_pools; eassumption.
Qed.

(** A page that is not free stays so until it is freed. *)
Lemma run_stays_allocated s tr s' p :
  0 < KEND -> run dcall s tr s' -> disjoint_pools s -> ~ is_free s p ->
  (forall c, ~ In (Free c p) tr) -> ~ is_free s' p.
Proof.
  intros Hkend. induction 1 as [|s e s1 tr s' Hstep _ IH]; intros Hp Hnot Hnofree;
    [assumption|].
  apply IH.
  - eapply dcall_pools; eassumption.
  - intros Hfree1. destruct (dcall_is_free _ _ _ p Hkend Hstep Hp Hfree1) as [H | [c ->]].
    + contradiction.
    + apply (Hnofree c). now left.
  - intros c Hin. apply (Hnofree c). now right.
Qed.

Lemma freed_in_dec tr p :
  (exists c, In (Free c p) tr) \/ (forall c, ~ In (Free c p) tr).
Proof.
  induction tr as [|e tr [[c Hin] | Hno]].
  - right. intros c [].
  - left. exists c. now right.
  - destruct e as [cpu r | cpu pa].
    + right. intros c [H | H]; [discriminate | now apply (Hno c)].
    + destruct (Z.eq_dec pa p) as [->|Hne].
      * left. exists cpu. now left.
      * right. intros c [H | H]; [congruence | now apply (Hno c)].
Qed.

(** C5, amended: as long as [kfree] is called only on pages that are on
    no free list, in every state reached from boot no page is on two free
    lists or twice on one, and a page [kalloc] has returned is not
    returned again before it is freed. *)
Theorem disciplined_conservation s0 tr s :
  0 < KEND -> boot s0 -> run dcall s0 tr s ->
  disjoint_pools s /\ conserved tr.
Proof.
  intros Hkend Hboot Hrun.
  assert (Hp0 : disjoint_pools s0) by (eexists; now apply pools_boot).
  split; [eapply run_pools; eassumption|].
  intros tr1 tr2 tr3 c1 c2 p Hne ->.
  destruct (freed_in_dec tr2 p) as [Hex | Hno]; [assumption | exfalso].
  destruct (run_app _ _ _ _ _ Hrun) as (sA & HrA & Hrest).
  inversion Hrest as [|sA' e sB tr' s' Hfirst Hrest2]; subst.
  destruct (run_app _ _ _ _ _ Hrest2) as (sC & HrC & Hrest3).
  inversion Hrest3 as [|sC' e sD tr' s' Hsecond _]; subst.
  assert (HpA : disjoint_pools sA) by (eapply run_pools; eassumption).
  assert (HpB : disjoint_pools sB) by (eapply dcall_pools; eassumption).
  assert (HpC : disjoint_pools sC) by (eapply run_pools; eassumption).
  inversion Hfirst as [sA' cA sB' rA H1 | ]; subst.
  inversion Hsecond as [sC' cC sD' rC H2 | ]; subst.
  destruct (kalloc_takes _ _ _ _ HpA H1 Hne) as [_ HnotB].
  destruct (kalloc_takes _ _ _ _ HpC H2 Hne) as [HfreeC _].
  exact (run_stays_allocated _ _ _ p Hkend HrC HpB HnotB Hno HfreeC).
Qed.

(** ** Initialisation *)

Lemma PGROUNDUP_spec x : PGROUNDUP x = (x + PGSIZE - 1) / PGSIZE * PGSIZE.
Proof.
  unfold PGROUNDUP, PGSIZE. change (4096 - 1) with (Z.ones 12).
  rewrite <- Z.ldiff_land, Z.ldiff_ones_r by lia.
  rewrite Z.shiftl_mul_pow2, Z.shiftr_div_pow2 by lia. reflexivity.
Qed.

Lemma PGROUNDUP_aligned x : PGROUNDUP x mod PGSIZE = 0 /\ x <= PGROUNDUP x.
Proof.
  rewrite PGROUNDUP_spec. unfold PGSIZE. split.
  - apply Z.mod_mul. lia.
  - pose proof (Z.div_mod (x + 4096 - 1) 4096 ltac:(lia)).
    pose proof (Z.mod_pos_bound (x + 4096 - 1) 4096 ltac:(lia)). lia.
Qed.

Lemma aligned_next p : p mod PGSIZE = 0 -> (p + PGSIZE) mod PGSIZE = 0.
Proof.
  unfold PGSIZE. intros H.
  replace (p + 4096) with (p + 1 * 4096) by lia. now rewrite Z.mod_add by lia.
Qed.

(** The loop of [freerange] ends because its condition fails, not because
    the iterations run out. *)
Lemma freerange_loop_fuel n : forall m s cpu p e,
  (e - p) / PGSIZE <= Z.of_nat n -> (n <= m)%nat ->
  freerange_loop m s cpu p e = freerange_loop n s cpu p e.
Proof.
  unfold PGSIZE. induction n as [|n IH]; intros m s cpu p e Hq Hm.
  - assert (Hexit : e < p + 4096).
    { pose proof (Z.div_mod (e - p) 4096 ltac:(lia)).
      pose proof (Z.mod_pos_bound (e - p) 4096 ltac:(lia)). lia. }
    destruct m as [|m]; [reflexivity|]. cbn [freerange_loop]. unfold PGSIZE.
    destruct (Z.leb_spec (p + 4096) e); [lia | reflexivity].
  - destruct m as [|m]; [lia|]. cbn [freerange_loop]. unfold PGSIZE.
    destruct (Z.leb_spec (p + 4096) e); [|reflexivity].
    destruct (kfree s cpu p) as [s1 []| | |]; try reflexivity.
    apply IH; [|lia].
    pose proof (Z.div_mod (e - p) 4096 ltac:(lia)).
    pose proof (Z.mod_pos_bound (e - p) 4096 ltac:(lia)).
    pose proof (Z.div_mod (e - (p + 4096)) 4096 ltac:(lia)).
    pose proof (Z.mod_pos_bound (e - (p + 4096)) 4096 ltac:(lia)). lia.
Qed.

Lemma freerange_loop_returns n : forall s cpu p e,
  p mod PGSIZE = 0 -> KEND <= p -> e <= PHYSTOP ->
  exists s', freerange_loop n s cpu p e = Ok s' tt.
Proof.
  induction n as [|n IH]; intros s cpu p e Ha Hlo Hhi; cbn [freerange_loop].
  - eauto.
  - destruct (Z.leb_spec (p + PGSIZE) e); [|eauto].
    rewrite kfree_ok by (unfold page_ok, PGSIZE in *; lia).
    apply IH; [now apply aligned_next | unfold PGSIZE; lia | assumption].
Qed.

(** [kinit] returns. *)
Lemma kinit_returns s cpu : exists s', kinit s cpu = Ok s' tt.
Proof.
  unfold kinit, freerange. destruct (PGROUNDUP_aligned KEND) as [Ha Hge].
  apply freerange_loop_returns; [assumption | assumption | lia].
Qed.

Lemma freerange_loop_reachable n : forall s cpu p e s',
  reachable s -> freerange_loop n s cpu p e = Ok s' tt -> reachable s'.
Proof.
  induction n as [|n IH]; intros s cpu p e s' R; cbn [freerange_loop].
  - now intros [= <-].
  - destruct (p + PGSIZE <=? e); [|now intros [= <-]].
    destruct (kfree s cpu p) as [s1 []| | |] eqn:E; try discriminate.
    apply IH. eapply reach_kfree; eassumption.
Qed.

(** The state [kinit] leaves is one of the reachable states. *)
Lemma kinit_reachable s cpu s' : boot s -> kinit s cpu = Ok s' tt -> reachable s'.
Proof.
  intros Hb. apply freerange_loop_reachable. now apply reach_boot.
Qed.

Lemma freerange_loop_run n : forall ls s cpu p e s',
  0 < KEND -> pools ls s -> (forall c q, In q (ls c) -> q < p) ->
  freerange_loop n s cpu p e = Ok s' tt ->
  exists tr, run dcall s tr s'.
Proof.
  induction n as [|n IH]; intros ls s cpu p e s' Hkend Hp Hbelow; cbn [freerange_loop].
  - intros [= <-]. exists []. constructor.
  - destruct (p + PGSIZE <=? e); [|intros [= <-]; exists []; constructor].
    destruct (kfree s cpu p) as [s1 []| | |] eqn:E; try discriminate.
    intros Hrest.
    assert (Hnew : forall c, ~ In p (ls c)).
    { intros c Hin. specialize (Hbelow c p Hin). lia. }
    destruct (IH (set_pool ls cpu (p :: ls cpu)) s1 cpu (p + PGSIZE) e s' Hkend)
      as [tr Hrun]; try assumption.
    + now apply (pools_kfree ls s cpu p s1).
    + intros c q. unfold set_pool, PGSIZE. destruct (c =? cpu).
      * intros [<- | Hin]; [lia | specialize (Hbelow cpu q Hin); lia].
      * intros Hin. specialize (Hbelow c q Hin). lia.
    + exists (Free cpu p :: tr). econstructor; [|exact Hrun].
      apply dcall_free; [|assumption].
      intros Hfree. apply (pools_is_free ls s p Hp) in Hfree.
      destruct Hfree as [c Hin]. now apply (Hnew c).
Qed.

(** [kinit] is a run of a caller that frees no page twice. *)
Lemma kinit_run s cpu s' :
  0 < KEND -> boot s -> kinit s cpu = Ok s' tt -> exists tr, run dcall s tr s'.
Proof.
  intros Hkend Hb. apply (freerange_loop_run _ (fun _ => [])); try assumption.
  - now apply pools_boot.
  - intros c q [].
Qed.

End WithLayout.

(** ** The small machine *)

Lemma tiny_pages :
  @page_ok tiny 0x87ffd000 /\ @page_ok tiny 0x87ffe000 /\ @page_ok tiny 0x87fff000.
Proof.
  unfold page_ok.
  repeat split; vm_compute; try reflexivity; discriminate.
Qed.

Lemma kfree_returns {L : Layout} s cpu pa :
  page_ok pa -> kfree s cpu pa = Ok (state_of (kfree s cpu pa)) tt.
Proof. intros H. rewrite (kfree_ok s cpu pa H). reflexivity. Qed.

Lemma kalloc_own {L : Layout} s cpu r :
  freelist s cpu = r -> r <> 0 -> 0 <= r < PHYSTOP ->
  kalloc s cpu = Ok (state_of (kalloc s cpu)) r.
Proof.
  intros <- Hne Hr. unfold kalloc. rewrite (pop_page s cpu Hne Hr).
  assert (E : (freelist s cpu =? 0) = false) by now apply Z.eqb_neq.
  rewrite !E. reflexivity.
Qed.

Lemma two_pages_reachable : @reachable tiny two_pages.
Proof.
  apply (@reach_kfree tiny (state_of (@kfree tiny boot0 0 0x87ffe000)) 0 0x87fff000).
  - apply (@reach_kfree tiny boot0 0 0x87ffe000).
    + apply reach_boot. intros c. reflexivity.
    + apply kfree_returns, tiny_pages.
  - apply kfree_returns, tiny_pages.
Qed.

Lemma kalloc_steals_witness :
  freelist two_pages 1 = 0 /\
  exists s', @kalloc tiny two_pages 1 = Ok s' 0x87fff000 /\
             freelist s' 0 = 0x87ffe000.
Proof.
  assert (Hown : freelist two_pages 1 = 0) by (vm_compute; reflexivity).
  split; [exact Hown|].
  destruct (proj2 (@kalloc_steals tiny two_pages 1 Hown) 7) as (s' & E & Hh & _).
  - unfold NCPU, tiny. lia.
  - intros i Hi.
    assert (i = 1 \/ i = 2 \/ i = 3 \/ i = 4 \/ i = 5 \/ i = 6)
      as [-> | [-> | [-> | [-> | [-> | ->]]]]] by lia; vm_compute; reflexivity.
  - vm_compute. discriminate.
  - vm_compute. split; [discriminate | reflexivity].
  - exists s'. split; [exact E | exact Hh].
Defined.

Lemma kfree_kalloc_bounds_witness :
  @PHYSTOP tiny <= fill 5 /\
  (forall s' r, @kalloc tiny two_pages 1 = Ok s' r -> r <> 0 -> @page_ok tiny r).
Proof.
  assert (H : @PHYSTOP tiny <= fill 5) by (vm_compute; discriminate).
  split; [exact H|].
  exact (proj2 (proj2 (@kfree_kalloc_bounds tiny H)) two_pages two_pages_reachable 1).
Defined.

Lemma twice_freed_run :
  run (@call tiny) boot0
      [Free 0 0x87fff000; Free 0 0x87fff000; Alloc 0 0x87fff000; Alloc 0 0x87fff000]
      twice_freed_2.
Proof.
  apply (run_cons _ _ _ (state_of (@kfree tiny boot0 0 0x87fff000)));
    [apply call_free, kfree_returns, tiny_pages|].
  apply (run_cons _ _ _ twice_freed); [apply call_free, kfree_returns, tiny_pages|].
  apply (run_cons _ _ _ twice_freed_1).
  { apply call_alloc, kalloc_own.
    - vm_compute. reflexivity.
    - discriminate.
    - vm_compute. split; [discriminate | reflexivity]. }
  apply (run_cons _ _ _ twice_freed_2); [|apply run_nil].
  apply call_alloc, kalloc_own.
  - vm_compute. reflexivity.
  - discriminate.
  - vm_compute. split; [discriminate | reflexivity].
Qed.

(** C5 as stated fails: nothing stops a second [kfree] of a page that is
    already free; the page then links to itself, and two allocations in a
    row return it with no [kfree] between them. *)
Lemma double_free_breaks_conservation :
  ~ (forall s0 tr s, boot s0 -> run (@call tiny) s0 tr s -> conserved tr).
Proof.
  intros H.
  specialize (H boot0 _ _ (fun _ => eq_refl) twice_freed_run
                [Free 0 0x87fff000; Free 0 0x87fff000] [] [] 0 0 0x87fff000).
  destruct H as [c []]; [discriminate | reflexivity].
Qed.

Lemma two_pages_run :
  run (@dcall tiny) boot0
      [Free 0 0x87ffe000; Free 0 0x87fff000; Alloc 1 0x87fff000]
      (state_of (@kalloc tiny two_pages 1)).
Proof.
  assert (Hempty : forall p, ~ is_free boot0 p).
  { intros p [c H]. inversion H; subst; cbn in *; congruence. }
  apply (run_cons _ _ _ (state_of (@kfree tiny boot0 0 0x87ffe000))).
  { apply dcall_free; [apply Hempty | apply kfree_returns, tiny_pages]. }
  apply (run_cons _ _ _ two_pages).
  { apply dcall_free; [|apply kfree_returns, tiny_pages].
    intros Hfree.
    assert (Hp : @pools tiny (set_pool (fun _ => []) 0 [0x87ffe000])
                        (state_of (@kfree tiny boot0 0 0x87ffe000))).
    { apply (@pools_kfree tiny (fun _ => []) boot0 0 0x87ffe000).
      - vm_compute. reflexivity.
      - apply pools_boot. intros c. reflexivity.
      - intros c [].
      - apply kfree_returns, tiny_pages. }
    apply (@pools_is_free tiny _ _ _ Hp) in Hfree. destruct Hfree as [c Hin].
    unfold set_pool in Hin. destruct (c =? 0); [|contradiction].
    destruct Hin as [E | []]. discriminate E. }
  apply (run_cons _ _ _ (state_of (@kalloc tiny two_pages 1))); [|apply run_nil].
  apply dcall_alloc.
  assert (E : @kalloc tiny two_pages 1 = Ok (state_of (@kalloc tiny two_pages 1)) 0x87fff000).
  { rewrite (@kalloc_steal_first tiny two_pages 1 7).
    - reflexivity.
    - vm_compute. reflexivity.
    - unfold NCPU, tiny. lia.
    - intros i Hi.
      assert (i = 1 \/ i = 2 \/ i = 3 \/ i = 4 \/ i = 5 \/ i = 6)
        as [-> | [-> | [-> | [-> | [-> | ->]]]]] by lia; vm_compute; reflexivity.
    - vm_compute. discriminate.
    - vm_compute. split; [discriminate | reflexivity]. }
  exact E.
Qed.

Lemma disciplined_conservation_witness :
  0 < @KEND tiny /\ boot boot0 /\
  @disjoint_pools tiny (state_of (@kalloc tiny two_pages 1)) /\
  conserved [Free 0 0x87ffe000; Free 0 0x87fff000; Alloc 1 0x87fff000].
Proof.
  assert (Hk : 0 < @KEND tiny) by (vm_compute; reflexivity).
  assert (Hb : boot boot0) by (intros c; reflexivity).
  split; [exact Hk|]. split; [exact Hb|].
  exact (@disciplined_conservation tiny boot0 _ _ Hk Hb two_pages_run).
Defined.


(* ------------------------------------------------------------------ *)
(** * More on the page allocator *)

Section Coverage.
Context {L : Layout}.






(** X14: what [kfree] puts in, [kalloc] gives back.  After [kfree] of a
    valid page, a [kalloc] on the same processor returns that very page,
    every free list head is what it was before the [kfree], the page is
    filled with 5 and memory outside the page is what it was. *)
Theorem kfree_kalloc_roundtrip s cpu pa :
  0 < KEND -> page_ok pa ->
  exists s1 s2,
    kfree s cpu pa = Ok s1 tt /\ kalloc s1 cpu = Ok s2 pa /\
    (forall c, freelist s2 c = freelist s c) /\
    (forall a, pa <= a -> a + 8 <= pa + PGSIZE -> next s2 a = fill 5) /\
    (forall a, a + 8 <= pa \/ pa + PGSIZE <= a -> next s2 a = next s a).
Proof.
  intros Hkend Hok. pose proof Hok as (Ha & Hlo & Hhi).
  eexists _, _. split; [now apply kfree_ok|].
  unfold kalloc. rewrite pop_page; cbn [freelist next]; rewrite ?set_head_same; try lia.
  assert (E : (pa =? 0) = false) by (apply Z.eqb_neq; lia).
  rewrite !E. split; [reflexivity|]. cbn [freelist next]. split; [|split].
  - intros c. unfold set_head.
    destruct (Z.eqb_spec c cpu) as [->|]; reflexivity.
  - intros a H1 H2. unfold memset.
    destruct (Z.leb_spec pa a); destruct (Z.leb_spec (a + 8) (pa + PGSIZE)); cbn [andb];
      try reflexivity; lia.
  - intros a Hout. unfold memset, store, PGSIZE in *.
    destruct (Z.leb_spec pa a); destruct (Z.leb_spec (a + 8) (pa + 4096));
      destruct (Z.eqb_spec a pa); cbn [andb]; try reflexivity; lia.
Qed.

Lemma steal_null_inv s cpu n : forall i0 s',
  steal s cpu n i0 = Ok s' 0 ->
  forall i, i0 <= i < i0 + Z.of_nat n -> freelist s ((cpu + i) mod NCPU) = 0.
Proof.
  induction n as [|n IH]; intros i0 s'; cbn [steal]; [intros _ i Hi; lia|].
  destruct (pop s ((cpu + i0) mod NCPU)) as [s1 r1| | |] eqn:E; try discriminate.
  destruct (Z.eqb_spec r1 0) as [->|Hne].
  - destruct (pop_inv _ _ _ _ E) as [(_ & -> & H0) | (Hc & _)]; [|contradiction].
    intros Hrest i Hi. destruct (Z.eq_dec i i0) as [->|]; [assumption|].
    apply (IH (i0 + 1) s' Hrest). lia.
  - intros [= _ ->]. contradiction.
Qed.

(** X15: [kalloc] reports "no memory" only when there is none.  On a
    processor of the machine it returns the null pointer exactly when the
    free list of every processor is empty, and then it has changed
    nothing. *)
Theorem kalloc_null_iff s cpu :
  0 <= cpu < NCPU ->
  ((exists s', kalloc s cpu = Ok s' 0) <->
   (forall c, 0 <= c < NCPU -> freelist s c = 0)) /\
  (forall s', kalloc s cpu = Ok s' 0 -> s' = s).
Proof.
  intros Hcpu. split; [split|].
  - intros [s' Halloc] c Hc.
    assert (Hown : freelist s cpu = 0 /\
                   forall i, 1 <= i < NCPU -> freelist s ((cpu + i) mod NCPU) = 0).
    { unfold kalloc in Halloc.
      destruct (pop s cpu) as [s1 r1| | |] eqn:E; try discriminate.
      destruct (Z.eqb_spec r1 0) as [->|Hne].
      - destruct (pop_inv _ _ _ _ E) as [(_ & -> & H0) | (Hc0 & _)]; [|contradiction].
        split; [assumption|].
        destruct (steal s cpu (Z.to_nat (NCPU - 1)) 1) as [s2 r2| | |] eqn:E2; try discriminate.
        destruct (Z.eqb_spec r2 0) as [->|Hne2].
        + intros i Hi. apply (steal_null_inv _ _ _ _ _ E2). lia.
        + injection Halloc as _ Hr. contradiction.
      - destruct (Z.eqb_spec r1 0); [contradiction|]. injection Halloc as _ Hr. contradiction. }
    destruct Hown as [Hown Hothers].
    destruct (Z.lt_trichotomy c cpu) as [Hlt | [-> | Hgt]]; [|assumption|].
    + assert (Hi : 1 <= c - cpu + NCPU < NCPU) by lia.
      specialize (Hothers _ Hi).
      replace (cpu + (c - cpu + NCPU)) with (c + 1 * NCPU) in Hothers by lia.
      rewrite Z.mod_add, Z.mod_small in Hothers by lia. exact Hothers.
    + assert (Hi : 1 <= c - cpu < NCPU) by lia.
      specialize (Hothers _ Hi).
      replace (cpu + (c - cpu)) with c in Hothers by lia.
      rewrite Z.mod_small in Hothers by lia. exact Hothers.
  - intros Hall. exists s. apply kalloc_all_empty.
    + apply Hall. lia.
    + intros i Hi. apply Hall. apply Z.mod_pos_bound. lia.
  - intros s' Halloc.
    destruct (kalloc_inv _ _ _ _ Halloc) as [(_ & ->) | (Hne & _)]; [reflexivity | contradiction].
Qed.

Lemma kalloc_pops_head s cpu :
  freelist s cpu <> 0 -> 0 <= freelist s cpu < PHYSTOP ->
  kalloc s cpu =
  Ok (mkKmem (set_head (freelist s) cpu (next s (freelist s cpu)))
             (memset (next s) (freelist s cpu) 5))
     (freelist s cpu).
Proof.
  intros Hne Hr. unfold kalloc. rewrite (pop_page s cpu Hne Hr).
  assert (E : (freelist s cpu =? 0) = false) by now apply Z.eqb_neq.
  now rewrite !E.
Qed.

(** With disjoint pools, [kalloc] on a processor whose list is [r :: l']
    returns [r] and leaves [l']. *)
Lemma kalloc_pops_own ls s cpu r l' :
  0 < KEND -> pools ls s -> ls cpu = r :: l' ->
  exists s', kalloc s cpu = Ok s' r /\ pools (set_pool ls cpu l') s' /\
             (forall c, c <> cpu -> freelist s' c = freelist s c).
Proof.
  intros Hkend Hp El. pose proof Hp as (Hl & Hok & _).
  assert (Hhead : freelist s cpu = r).
  { specialize (Hl cpu). rewrite El in Hl. now inversion Hl. }
  assert (Hr : page_ok r) by (apply (Hok cpu); rewrite El; now left).
  destruct Hr as (_ & Hlo & Hhi).
  pose proof (kalloc_pops_head s cpu) as Halloc. rewrite Hhead in Halloc.
  specialize (Halloc ltac:(lia) ltac:(lia)).
  eexists. split; [exact Halloc|]. split.
  - destruct (pools_kalloc _ _ _ _ _ Hp Halloc) as [(H0 & _) | (_ & c & l2 & Ec & Hp')]; [lia|].
    assert (c = cpu) as ->.
    { destruct (Z.eq_dec c cpu) as [|Hc]; [assumption|]. exfalso.
      destruct Hp as (_ & _ & _ & Hdis).
      apply (Hdis c cpu r Hc); [rewrite Ec | rewrite El]; now left. }
    rewrite El in Ec. injection Ec as <-. exact Hp'.
  - intros c Hc. cbn [freelist]. now apply set_head_other.
Qed.

(** X16: a processor whose own free list is not empty is served from it:
    [kalloc] returns the head of that list, the list loses exactly that
    page, no other processor's list is touched, and the pools stay
    disjoint. *)
Theorem kalloc_own_pool_first ls s cpu :
  0 < KEND -> pools ls s -> ls cpu <> [] ->
  exists r l' s',
    ls cpu = r :: l' /\ freelist s cpu = r /\ kalloc s cpu = Ok s' r /\
    freelist s' cpu = next s r /\
    pools (set_pool ls cpu l') s' /\
    (forall c, c <> cpu -> freelist s' c = freelist s c).
Proof.
  intros Hkend Hp Hne.
  destruct (ls cpu) as [|r l'] eqn:El; [contradiction|].
  destruct (kalloc_pops_own ls s cpu r l' Hkend Hp El) as (s' & Halloc & Hp' & Hframe).
  assert (Hhead : freelist s cpu = r).
  { destruct Hp as (Hl & _). specialize (Hl cpu). rewrite El in Hl. now inversion Hl. }
  exists r, l', s'. split; [reflexivity|]. split; [assumption|]. split; [assumption|].
  split; [|now split].
  destruct (kalloc_inv _ _ _ _ Halloc) as [(H0 & _) | (Hnz & c & s1 & Hpop & ->)].
  - destruct Hp as (_ & Hok & _). destruct (Hok cpu r) as (_ & Hlo & _); [rewrite El; now left|].
    lia.
  - cbn [freelist].
    destruct (pop_inv _ _ _ _ Hpop) as [(H0 & _) | (_ & Hrc & _ & ->)]; [contradiction|].
    cbn [freelist].
    assert (c = cpu) as ->.
    { destruct (Z.eq_dec c cpu) as [|Hc]; [assumption|]. exfalso.
      pose proof Hp as (Hl & _ & _ & Hdis).
      pose proof (Hl c) as Hlc. rewrite <- Hrc in Hlc.
      destruct (is_list_cons_inv _ _ _ Hlc Hnz) as (l2 & Ec & _).
      apply (Hdis c cpu r Hc); [rewrite Ec | rewrite El]; now left. }
    apply set_head_same.
Qed.

(** X17: no page is lost and none is invented.  With disjoint pools, the
    pages free after a [kalloc] that returns a page are the pages free
    before without that page; after a [kalloc] that returns null they are
    the same; after a [kfree] of a page that was not free they are the
    pages free before and that page. *)
Theorem free_pages_accounting s :
  0 < KEND -> disjoint_pools s ->
  (forall cpu s' r, kalloc s cpu = Ok s' r -> r <> 0 ->
     forall p, is_free s' p <-> (is_free s p /\ p <> r)) /\
  (forall cpu s', kalloc s cpu = Ok s' 0 -> forall p, is_free s' p <-> is_free s p) /\
  (forall cpu pa s', ~ is_free s pa -> kfree s cpu pa = Ok s' tt ->
     forall p, is_free s' p <-> (is_free s p \/ p = pa)).
Proof.
  intros Hkend [ls Hp]. split; [|split].
  - intros cpu s' r Halloc Hne p.
    destruct (pools_kalloc _ _ _ _ _ Hp Halloc) as [(H0 & _) | (_ & c & l' & El & Hp')];
      [contradiction|].
    rewrite (pools_is_free _ _ p Hp'), (pools_is_free _ _ p Hp).
    pose proof Hp as (_ & _ & Hnd & Hdis).
    assert (Hnd' : NoDup (r :: l')) by (rewrite <- El; apply Hnd).
    split.
    + intros [c' Hin]. destruct (Z.eq_dec c' c) as [->|Hc'].
      * rewrite set_pool_same in Hin. split; [exists c; rewrite El; now right|].
        intros ->. now inversion Hnd'.
      * rewrite set_pool_other in Hin by assumption. split; [eauto|].
        intros ->. apply (Hdis c' c r Hc' Hin). rewrite El. now left.
    + intros [[c' Hin] Hpr]. exists c'. destruct (Z.eq_dec c' c) as [->|Hc'].
      * rewrite set_pool_same. rewrite El in Hin. destruct Hin as [E | Hin]; [congruence | assumption].
      * now rewrite set_pool_other by assumption.
  - intros cpu s' Halloc p.
    destruct (kalloc_inv _ _ _ _ Halloc) as [(_ & ->) | (Hne & _)]; [reflexivity | contradiction].
  - intros cpu pa s' Hnot Hfree p.
    assert (Hnew : forall c, ~ In pa (ls c)).
    { intros c Hin. apply Hnot. apply (pools_is_free ls s pa Hp). eauto. }
    pose proof (pools_kfree ls s cpu pa s' Hkend Hp Hnew Hfree) as Hp'.
    rewrite (pools_is_free _ _ p Hp'), (pools_is_free _ _ p Hp). split.
    + intros [c Hin]. destruct (Z.eq_dec c cpu) as [->|Hc].
      * rewrite set_pool_same in Hin. destruct Hin as [<- | Hin]; [now right | left; eauto].
      * rewrite set_pool_other in Hin by assumption. left. eauto.
    + intros [[c Hin] | ->].
      * exists c. destruct (Z.eq_dec c cpu) as [->|Hc].
        -- rewrite set_pool_same. now right.
        -- now rewrite set_pool_other by assumption.
      * exists cpu. rewrite set_pool_same. now left.
Qed.


(** X19: with disjoint pools [kalloc] always returns, and what it returns
    is the null pointer or a page that [kfree] would accept: it neither
    panics nor follows a pointer that is not a page. *)
Theorem kalloc_never_fails s cpu :
  0 < KEND -> disjoint_pools s ->
  exists s' r, kalloc s cpu = Ok s' r /\ (r = 0 \/ page_ok r) /\ disjoint_pools s'.
Proof.
  intros Hkend Hp.
  destruct (kalloc_returns s cpu Hkend Hp) as (s' & r & Halloc & Hr).
  exists s', r. split; [assumption|]. split; [assumption|].
  destruct Hp as [ls Hp].
  destruct (pools_kalloc _ _ _ _ _ Hp Halloc) as [(_ & ->) | (_ & c & l' & _ & Hp')];
    eexists; eassumption.
Qed.

(** X21: a pool drains in list order.  When only the list of processor
    [cpu] holds pages, as many calls of [kalloc] on it as the list is long
    return the pages of the list from its head on, each once; then every
    list is empty and the next [kalloc] returns the null pointer. *)
Theorem pool_drains ls s cpu :
  0 < KEND -> pools ls s -> (forall c, c <> cpu -> ls c = []) ->
  exists s',
    allocs s cpu (List.length (ls cpu)) = Ok s' (ls cpu) /\
    NoDup (ls cpu) /\
    (forall c, freelist s' c = 0) /\
    kalloc s' cpu = Ok s' 0.
Proof.
  intros Hkend Hp Hothers.
  assert (Hnd : NoDup (ls cpu)) by apply Hp.
  enough (Hgen : forall l ls0 s0, pools ls0 s0 -> ls0 cpu = l ->
                   (forall c, c <> cpu -> ls0 c = []) ->
                   exists s', allocs s0 cpu (List.length l) = Ok s' l /\
                              forall c, freelist s' c = 0).
  { destruct (Hgen (ls cpu) ls s Hp eq_refl Hothers) as (s' & Hrun & Hempty).
    exists s'. split; [assumption|]. split; [assumption|]. split; [assumption|].
    apply kalloc_all_empty; [apply Hempty | intros i _; apply Hempty]. }
  induction l as [|r l IH]; intros ls0 s0 Hp0 El Hoth; cbn [List.length allocs].
  - exists s0. split; [reflexivity|]. intros c.
    destruct Hp0 as (Hl & _). specialize (Hl c).
    destruct (Z.eq_dec c cpu) as [->|Hc].
    + rewrite El in Hl. now inversion Hl.
    + rewrite (Hoth c Hc) in Hl. now inversion Hl.
  - destruct (kalloc_pops_own ls0 s0 cpu r l Hkend Hp0 El) as (s1 & Halloc & Hp1 & _).
    rewrite Halloc.
    destruct (IH (set_pool ls0 cpu l) s1 Hp1) as (s' & Hrun & Hempty).
    + apply set_pool_same.
    + intros c Hc. rewrite set_pool_other by assumption. now apply Hoth.
    + rewrite Hrun. exists s'. now split.
Qed.

(** X22: what a second [kfree] of the same page does.  Nothing stops it:
    the page becomes the head of the list and links to itself.  The next
    two calls of [kalloc] on that processor both return the page, and the
    third follows the fill pattern the first left in the page as if it
    were a pointer, which is not an address of memory. *)
Theorem double_free_cycle s cpu pa :
  0 < KEND -> PHYSTOP <= fill 5 -> page_ok pa ->
  exists s1 s2 s3 s4,
    kfree s cpu pa = Ok s1 tt /\ kfree s1 cpu pa = Ok s2 tt /\
    freelist s2 cpu = pa /\ next s2 pa = pa /\
    kalloc s2 cpu = Ok s3 pa /\ kalloc s3 cpu = Ok s4 pa /\
    freelist s4 cpu = fill 5 /\ kalloc s4 cpu = Fault.
Proof.
  intros Hkend Hjunk Hok. pose proof Hok as (Ha & Hlo & Hhi).
  assert (Hnz : pa <> 0) by lia. assert (Hr : 0 <= pa < PHYSTOP) by lia.
  assert (Hstep : forall x, freelist x cpu = pa ->
            kalloc x cpu =
            Ok (mkKmem (set_head (freelist x) cpu (next x pa)) (memset (next x) pa 5)) pa).
  { intros x E. pose proof (kalloc_pops_head x cpu) as K. rewrite E in K. now apply K. }
  set (s1 := mkKmem (set_head (freelist s) cpu pa)
                    (store (memset (next s) pa 1) pa (freelist s cpu))).
  set (s2 := mkKmem (set_head (freelist s1) cpu pa)
                    (store (memset (next s1) pa 1) pa (freelist s1 cpu))).
  assert (E2h : freelist s2 cpu = pa) by apply set_head_same.
  assert (E2n : next s2 pa = pa).
  { unfold s2. cbn [next]. rewrite store_same. apply set_head_same. }
  set (s3 := mkKmem (set_head (freelist s2) cpu (next s2 pa)) (memset (next s2) pa 5)).
  assert (E3h : freelist s3 cpu = pa).
  { unfold s3. cbn [freelist]. now rewrite set_head_same. }
  assert (E3n : next s3 pa = fill 5) by apply memset_same.
  set (s4 := mkKmem (set_head (freelist s3) cpu (next s3 pa)) (memset (next s3) pa 5)).
  assert (E4h : freelist s4 cpu = fill 5).
  { unfold s4. cbn [freelist]. now rewrite set_head_same. }
  exists s1, s2, s3, s4.
  split; [now apply kfree_ok|]. split; [now apply kfree_ok|].
  split; [assumption|]. split; [assumption|].
  split; [now apply Hstep|]. split; [now apply Hstep|]. split; [assumption|].
  unfold kalloc, pop, load. rewrite E4h.
  assert (E0 : (fill 5 =? 0) = false) by reflexivity.
  assert (E1 : (fill 5 <? PHYSTOP) = false) by (apply Z.ltb_ge; assumption).
  now rewrite E0, E1, andb_false_r.
Qed.

End Coverage.


Lemma kfree_kalloc_roundtrip_witness :
  0 < @KEND tiny /\ @page_ok tiny 0x87fff000 /\
  exists s1 s2, @kfree tiny two_pages 3 0x87fff000 = Ok s1 tt /\
                @kalloc tiny s1 3 = Ok s2 0x87fff000 /\
                freelist s2 0 = freelist two_pages 0.
Proof.
  assert (Hk : 0 < @KEND tiny) by (vm_compute; reflexivity).
  assert (Hp : @page_ok tiny 0x87fff000) by apply tiny_pages.
  split; [exact Hk|]. split; [exact Hp|].
  destruct (@kfree_kalloc_roundtrip tiny two_pages 3 0x87fff000 Hk Hp)
    as (s1 & s2 & Hf & Ha & Hheads & _).
  exists s1, s2. split; [exact Hf|]. split; [exact Ha|]. apply Hheads.
Defined.

Lemma kalloc_null_iff_witness :
  0 <= 5 < @NCPU tiny /\ @kalloc tiny boot0 5 = Ok boot0 0.
Proof.
  assert (Hc : 0 <= 5 < @NCPU tiny) by (vm_compute; split; [discriminate | reflexivity]).
  split; [exact Hc|].
  destruct (proj2 (proj1 (@kalloc_null_iff tiny boot0 5 Hc)) (fun c _ => eq_refl)) as [s' E].
  now rewrite (proj2 (@kalloc_null_iff tiny boot0 5 Hc) s' E) in E.
Defined.

Lemma two_pages_pools :
  @pools tiny (set_pool (set_pool (fun _ => []) 0 [0x87ffe000]) 0
                        [0x87fff000; 0x87ffe000]) two_pages.
Proof.
  assert (Hk : 0 < @KEND tiny) by (vm_compute; reflexivity).
  assert (H1 : @pools tiny (set_pool (fun _ => []) 0 [0x87ffe000])
                      (state_of (@kfree tiny boot0 0 0x87ffe000))).
  { apply (@pools_kfree tiny (fun _ => []) boot0 0 0x87ffe000 _ Hk).
    - apply pools_boot. intros c. reflexivity.
    - intros c [].
    - apply kfree_returns, tiny_pages. }
  apply (@pools_kfree tiny _ _ 0 0x87fff000 _ Hk H1).
  - intros c. unfold set_pool. destruct (c =? 0); [|intros []].
    intros [E | []]. discriminate E.
  - apply kfree_returns, tiny_pages.
Qed.

Lemma kalloc_own_pool_first_witness :
  0 < @KEND tiny /\
  exists r l' s', @kalloc tiny two_pages 0 = Ok s' r /\ r :: l' = [0x87fff000; 0x87ffe000].
Proof.
  assert (Hk : 0 < @KEND tiny) by (vm_compute; reflexivity).
  split; [exact Hk|].
  destruct (@kalloc_own_pool_first tiny _ two_pages 0 Hk two_pages_pools)
    as (r & l' & s' & El & _ & Halloc & _).
  - discriminate.
  - exists r, l', s'. split; [exact Halloc|]. now rewrite <- El.
Defined.

Lemma free_pages_accounting_witness :
  0 < @KEND tiny /\ @disjoint_pools tiny two_pages /\
  (forall s' r, @kalloc tiny two_pages 1 = Ok s' r -> r <> 0 ->
     forall p, is_free s' p <-> (is_free two_pages p /\ p <> r)).
Proof.
  assert (Hk : 0 < @KEND tiny) by (vm_compute; reflexivity).
  assert (Hp : @disjoint_pools tiny two_pages) by (eexists; apply two_pages_pools).
  split; [exact Hk|]. split; [exact Hp|].
  exact (proj1 (@free_pages_accounting tiny two_pages Hk Hp) 1).
Defined.

Lemma kalloc_never_fails_witness :
  0 < @KEND tiny /\ @disjoint_pools tiny two_pages /\
  exists s' r, @kalloc tiny two_pages 1 = Ok s' r /\ (r = 0 \/ @page_ok tiny r).
Proof.
  assert (Hk : 0 < @KEND tiny) by (vm_compute; reflexivity).
  assert (Hp : @disjoint_pools tiny two_pages) by (eexists; apply two_pages_pools).
  split; [exact Hk|]. split; [exact Hp|].
  destruct (@kalloc_never_fails tiny two_pages 1 Hk Hp) as (s' & r & E & Hr & _).
  exists s', r. now split.
Defined.

Lemma pool_drains_witness :
  0 < @KEND tiny /\
  exists s', @allocs tiny two_pages 0 2 = Ok s' [0x87fff000; 0x87ffe000] /\
             @kalloc tiny s' 0 = Ok s' 0.
Proof.
  assert (Hk : 0 < @KEND tiny) by (vm_compute; reflexivity).
  split; [exact Hk|].
  destruct (@pool_drains tiny _ two_pages 0 Hk two_pages_pools) as (s' & Hrun & _ & _ & Hnull).
  - intros c Hc. unfold set_pool. now destruct (Z.eqb_spec c 0).
  - exists s'. split; [exact Hrun | exact Hnull].
Defined.

Lemma double_free_cycle_witness :
  0 < @KEND tiny /\ @PHYSTOP tiny <= fill 5 /\ @page_ok tiny 0x87fff000 /\
  exists s2 s3 s4,
    @kalloc tiny s2 0 = Ok s3 0x87fff000 /\ @kalloc tiny s3 0 = Ok s4 0x87fff000 /\
    @kalloc tiny s4 0 = Fault.
Proof.
  assert (Hk : 0 < @KEND tiny) by (vm_compute; reflexivity).
  assert (Hj : @PHYSTOP tiny <= fill 5) by (vm_compute; discriminate).
  assert (Hp : @page_ok tiny 0x87fff000) by apply tiny_pages.
  split; [exact Hk|]. split; [exact Hj|]. split; [exact Hp|].
  destruct (@double_free_cycle tiny boot0 0 0x87fff000 Hk Hj Hp)
    as (s1 & s2 & s3 & s4 & _ & _ & _ & _ & H3 & H4 & _ & H5).
  exists s2, s3, s4. repeat split; assumption.
Defined.


End KallocFacts.
